(** * Shallow embedding of xla/service/gpu/cudnn_convolution_algorithm_picker.cc

    The cuDNN convolution autotuner: the bounded [ScratchAllocator], the
    Winograd-nonfused inclusion policy, the benchmark loop of
    [PickBestAlgorithm] and the HLO rewrite of [RunOnInstruction].

    External collaborators (the device memory allocator, the cuDNN
    primitives, the buffer comparator, the stream) are gathered in one
    record [Env]; every theorem quantifies over it. *)

From Stdlib Require Import ZArith List String Ascii Bool Lia.
Import ListNotations.
Open Scope Z_scope.
Open Scope string_scope.
Set Warnings "-register-all".


(* ------------------------------------------------------------------ *)
(** ** Machine integers *)

(** Two's-complement wrap of a mathematical integer into [int64]. *)
Definition wrap64 (z : Z) : Z := (z + 2 ^ 63) mod 2 ^ 64 - 2 ^ 63.

(** Conversion of an [int64] to [uint64] (or [size_t]): reduction mod 2^64. *)
Definition to_u64 (z : Z) : Z := z mod 2 ^ 64.

(** [int64 * int64]; the machine wraps. *)
Definition mul64 (a b : Z) : Z := wrap64 (a * b).

(** [int64 * size_t]: the [int64] operand is converted to [uint64] and the
    product is taken mod 2^64. *)
Definition mul_u64 (a b : Z) : Z := to_u64 (to_u64 a * b).

(** [tensorflow::MathUtil::CeilOfRatio] for a positive divisor: the exact
    ceiling of the quotient. *)
Definition CeilOfRatio (n d : Z) : Z := - ((- n) / d).

(* ------------------------------------------------------------------ *)
(** ** Decimal rendering used by [absl::StrFormat("%d")] *)

(** Decimal digits of a non-negative integer, prepended to [acc]; [fuel]
    bounds the number of digits (an [int64] has at most 19). *)
Fixpoint digits_of_Z (fuel : nat) (n : Z) (acc : string) : string :=
  match fuel with
  | O => acc
  | S fuel' =>
      let acc' := String (ascii_of_nat (48 + Z.to_nat (n mod 10))) acc in
      if Z.ltb n 10 then acc' else digits_of_Z fuel' (n / 10) acc'
  end.

Definition string_of_Z (z : Z) : string :=
  if Z.ltb z 0 then "-" ++ digits_of_Z 20 (- z) "" else digits_of_Z 20 z "".

(* ------------------------------------------------------------------ *)
(** ** Status and StatusOr *)

Inductive ErrorCode := OK | INTERNAL | RESOURCE_EXHAUSTED | UNKNOWN.

Record Status := mkStatus { status_code : ErrorCode; status_message : string }.

Definition InternalError (msg : string) : Status := mkStatus INTERNAL msg.

Inductive StatusOr (A : Type) :=
| SOk (a : A)
| SErr (s : Status).
Arguments SOk {A} a.
Arguments SErr {A} s.

(* ------------------------------------------------------------------ *)
(** ** Device memory *)

(** [se::DeviceMemoryBase]: an opaque device address and a size in bytes. *)
Record DeviceMemoryBase := mkDeviceMemory { dm_opaque : Z; dm_size : Z }.

(** [OwningDeviceMemory] as returned by the device memory allocator. *)
Definition OwningDeviceMemory := DeviceMemoryBase.

(** The injected [DeviceMemoryAllocator::Allocate(ordinal, size,
    retry_on_failure)]. *)
Definition DeviceAllocateFn := Z -> Z -> bool -> StatusOr OwningDeviceMemory.

(* ------------------------------------------------------------------ *)
(** ** ScratchAllocator *)

Module Scratch.

Record ScratchAllocator := mkScratchAllocator {
  device_ordinal_ : Z;
  allocated_buffers_ : list OwningDeviceMemory;
  total_allocated_bytes_ : Z
}.

Definition create (device_ordinal : Z) : ScratchAllocator :=
  mkScratchAllocator device_ordinal [] 0.

(** [GetMemoryLimitInBytes]: [1LL << 32]. *)
Definition GetMemoryLimitInBytes : Z := Z.shiftl 1 32.

Definition TotalAllocatedBytes (sa : ScratchAllocator) : Z :=
  total_allocated_bytes_ sa.

Definition limit_message (byte_size : Z) : string :=
  "Allocating " ++ string_of_Z byte_size ++ " bytes exceeds the memory limit of "
  ++ string_of_Z GetMemoryLimitInBytes ++ " bytes.".

(** Outcome of [AllocateBytes]: [CHECK_GE(byte_size, 0)] aborts the process. *)
Inductive AllocResult :=
| AllocCrash
| AllocErr (s : Status)
| AllocOk (buf : DeviceMemoryBase).

(** [ScratchAllocator::AllocateBytes]: the allocator state is threaded
    explicitly and returned alongside the outcome. *)
Definition AllocateBytes (memory_allocator : DeviceAllocateFn)
    (sa : ScratchAllocator) (byte_size : Z) : AllocResult * ScratchAllocator :=
  if Z.ltb byte_size 0 then (AllocCrash, sa)
  else if Z.gtb byte_size GetMemoryLimitInBytes then
    (AllocErr (mkStatus RESOURCE_EXHAUSTED (limit_message byte_size)), sa)
  else
    match memory_allocator (device_ordinal_ sa) byte_size false with
    | SErr s => (AllocErr s, sa)
    | SOk allocated_buffer =>
        (AllocOk allocated_buffer,
         mkScratchAllocator (device_ordinal_ sa)
           (allocated_buffers_ sa ++ [allocated_buffer])
           (total_allocated_bytes_ sa + byte_size))
    end.

(** The requests a cuDNN call makes against one allocator, in order; the
    first one that does not succeed ends the sequence. *)
Fixpoint AllocateAll (memory_allocator : DeviceAllocateFn)
    (sa : ScratchAllocator) (reqs : list Z) : AllocResult * ScratchAllocator :=
  match reqs with
  | [] => (AllocOk (mkDeviceMemory 0 0), sa)
  | r :: rest =>
      match AllocateBytes memory_allocator sa r with
      | (AllocOk _, sa') => AllocateAll memory_allocator sa' rest
      | other => other
      end
  end.

End Scratch.

(* ------------------------------------------------------------------ *)
(** ** Shapes and convolution dimension numbers *)

Inductive PrimitiveType := PRED | S8 | S16 | S32 | S64 | U8 | U16 | U32 | U64
                         | F16 | BF16 | F32 | F64.

Definition PrimitiveType_eqb (a b : PrimitiveType) : bool :=
  match a, b with
  | PRED, PRED | S8, S8 | S16, S16 | S32, S32 | S64, S64
  | U8, U8 | U16, U16 | U32, U32 | U64, U64
  | F16, F16 | BF16, BF16 | F32, F32 | F64, F64 => true
  | _, _ => false
  end.

Definition ByteSizeOfPrimitiveType (t : PrimitiveType) : Z :=
  match t with
  | PRED | S8 | U8 => 1
  | S16 | U16 | F16 | BF16 => 2
  | S32 | U32 | F32 => 4
  | S64 | U64 | F64 => 8
  end.

Inductive Shape :=
| ArrayShape (element_type : PrimitiveType) (dims : list Z)
| TupleShape (tuple_shapes : list Shape).

Definition element_type (s : Shape) : option PrimitiveType :=
  match s with ArrayShape t _ => Some t | TupleShape _ => None end.

(** [Shape::dimensions(i)]. *)
Definition dimensions (s : Shape) (i : Z) : Z :=
  match s with
  | ArrayShape _ dims => nth (Z.to_nat i) dims 0
  | TupleShape _ => 0
  end.

(** [Shape::tuple_shapes(i)]. *)
Definition tuple_shapes (s : Shape) (i : nat) : Shape :=
  match s with
  | TupleShape ts => nth i ts (TupleShape [])
  | ArrayShape _ _ => TupleShape []
  end.

(** [ShapeUtil::ByteSizeOf] of a dense array: element count times element
    width (modelled from the spec: operand sizes are derived from shapes). *)
Definition ByteSizeOf (s : Shape) : Z :=
  match s with
  | ArrayShape t dims => fold_right Z.mul 1 dims * ByteSizeOfPrimitiveType t
  | TupleShape _ => 0
  end.

(** [ShapeUtil::MakeShape] and [ShapeUtil::MakeTupleShape]. *)
Definition MakeShape (t : PrimitiveType) (dims : list Z) : Shape := ArrayShape t dims.
Definition MakeTupleShape (ss : list Shape) : Shape := TupleShape ss.

Record ConvolutionDimensionNumbers := mkDnums {
  input_batch_dimension : Z;
  input_feature_dimension : Z;
  input_spatial_dimensions : list Z;
  kernel_input_feature_dimension : Z;
  kernel_output_feature_dimension : Z;
  kernel_spatial_dimensions : list Z;
  output_batch_dimension : Z;
  output_feature_dimension : Z;
  output_spatial_dimensions : list Z
}.

Definition input_spatial_dimensions_size (d : ConvolutionDimensionNumbers) : Z :=
  Z.of_nat (List.length (input_spatial_dimensions d)).

Definition input_spatial_dimension (d : ConvolutionDimensionNumbers) (i : nat) : Z :=
  nth i (input_spatial_dimensions d) 0.

(** [Window]: per-spatial-dimension size, stride and padding. *)
Record WindowDimension := mkWindowDim {
  wd_size : Z; wd_stride : Z; wd_padding_low : Z; wd_padding_high : Z
}.
Definition Window := list WindowDimension.

(* ------------------------------------------------------------------ *)
(** ** Winograd-nonfused inclusion policy *)

(** [se::dnn::VersionInfo]. *)
Record VersionInfo := mkVersion { major_version : Z; minor_version : Z; patch : Z }.

Definition threshold : Z := Z.shiftl 1 31.

(** [ShouldIncludeWinogradNonfusedAlgo]; [version] is the result of
    [stream_exec->AsDnn()->GetVersion()]. *)
Definition ShouldIncludeWinogradNonfusedAlgo (version : StatusOr VersionInfo)
    (input_shape output_shape : Shape) (dnums : ConvolutionDimensionNumbers) : bool :=
  let skip := match version with
              | SOk v => Z.geb (major_version v) 7
              | SErr _ => false
              end in
  if skip then true
  else
    let batch := dimensions input_shape (input_batch_dimension dnums) in
    let in_depths := dimensions input_shape (input_feature_dimension dnums) in
    let in_rows := dimensions input_shape (input_spatial_dimension dnums 0) in
    let in_cols := if Z.eqb (input_spatial_dimensions_size dnums) 1 then 1
                   else dimensions input_shape (input_spatial_dimension dnums 1) in
    let out_depths := dimensions output_shape (output_feature_dimension dnums) in
    let total_size :=
      wrap64 (mul_u64 (mul64 (mul64 (mul64 (CeilOfRatio batch 16)
                                           (Z.max in_depths out_depths))
                                     in_cols)
                               in_rows)
                      4) in
    Z.ltb total_size threshold.

(* ------------------------------------------------------------------ *)
(** ** Algorithms, profiles and the HLO instruction *)

(** [se::dnn::AlgorithmDesc]. *)
Record AlgorithmDesc := mkAlgorithmDesc { algo_id : Z; tensor_ops_enabled : bool }.

(** [FLT_MAX], the initial elapsed time of a [ProfileResult]. *)
Definition kMaxElapsedMs : Z := 340282346638528859811704183484516925440.

(** Modelled from the spec: [se::dnn::ProfileResult] (validity flag, elapsed
    time, the algorithm it corresponds to).  Elapsed times are finite
    floats, hence at most [FLT_MAX]; a fresh result has no algorithm and the
    [FLT_MAX] elapsed time, and a result is valid when it names an algorithm
    and its elapsed time is not that sentinel. *)
Record ProfileResult := mkProfileResult {
  pr_algorithm : option AlgorithmDesc;
  elapsed_time_in_ms : Z
}.

Definition default_profile : ProfileResult := mkProfileResult None kMaxElapsedMs.

Definition is_valid (p : ProfileResult) : bool :=
  match pr_algorithm p with
  | Some _ => Z.ltb (elapsed_time_in_ms p) kMaxElapsedMs
  | None => false
  end.

Definition algorithm (p : ProfileResult) : AlgorithmDesc :=
  match pr_algorithm p with
  | Some a => a
  | None => mkAlgorithmDesc (-1) false
  end.

Inductive CudnnConvKind := kForward | kBackwardInput | kBackwardFilter.

Inductive HloOpcode := kCustomCall | kTuple | kGetTupleElement | kConstant | kOtherOpcode.

(** [CudnnConvBackendConfig]. *)
Record CudnnConvBackendConfig := mkBackendConfig {
  bc_algorithm : Z;
  bc_tensor_ops_enabled : bool
}.

Record HloInstruction := mkHlo {
  hi_id : Z;
  hi_name : string;
  hi_opcode : HloOpcode;
  hi_shape : Shape;
  hi_operands : list Z;
  hi_custom_call_target : string;
  hi_window : Window;
  hi_dnums : ConvolutionDimensionNumbers;
  hi_backend_config : option CudnnConvBackendConfig;
  hi_tuple_index : Z;
  hi_literal : list Z
}.

(** Modelled from the spec: [HloInstruction::ToString], rendered by the name
    that identifies the instruction. *)
Definition ToString (instr : HloInstruction) : string := hi_name instr.

(* ------------------------------------------------------------------ *)
(** ** Collaborators of the picker *)

(** What the cuDNN primitive does when run with one algorithm: the scratch
    requests it makes, whether the launch succeeds, and the timing it
    reports ([None]: no profile filled in). *)
Record ConvOutcome := mkConvOutcome {
  co_scratch_requests : list Z;
  co_launch_ok : bool;
  co_elapsed_time_in_ms : option Z
}.

Record Env := mkEnv {
  env_allocator_ : option DeviceAllocateFn;        (* this->allocator_ *)
  env_se_allocator : DeviceAllocateFn;             (* StreamExecutorMemoryAllocator *)
  env_device_ordinal : Z;
  env_dnn_version : StatusOr VersionInfo;          (* AsDnn()->GetVersion() *)
  env_block_host_until_done : StatusOr unit;
  (** [GetConvolve*Algorithms]; [None] when the query returns false. *)
  env_get_algorithms : CudnnConvKind -> bool -> option (list AlgorithmDesc);
  env_run : AlgorithmDesc -> ConvOutcome;
  (** [F16BufferComparator::Create] on the result buffer, holding the
      output of the given algorithm. *)
  env_comparator_create : DeviceMemoryBase -> AlgorithmDesc -> StatusOr unit;
  (** [CompareEqual] of a candidate's output against a reference's. *)
  env_compare_equal : AlgorithmDesc -> AlgorithmDesc -> StatusOr bool;
  env_crash_on_verification_failures : bool
}.

(** Modelled from the spec: [RunCudnnConvolution].  It draws its scratch
    memory from the given allocator; a failing request fails the launch, and
    a successful launch fills the profile for the algorithm it ran. *)
Inductive RunResult :=
| RunCrash
| RunDone (launch_ok : bool) (profile : ProfileResult) (sa : Scratch.ScratchAllocator).

Definition RunCudnnConvolution (env : Env) (allocator : DeviceAllocateFn)
    (alg : AlgorithmDesc) (sa : Scratch.ScratchAllocator) : RunResult :=
  let o := env_run env alg in
  match Scratch.AllocateAll allocator sa (co_scratch_requests o) with
  | (Scratch.AllocCrash, _) => RunCrash
  | (Scratch.AllocErr _, sa') => RunDone false default_profile sa'
  | (Scratch.AllocOk _, sa') =>
      if co_launch_ok o then
        match co_elapsed_time_in_ms o with
        | Some t => RunDone true (mkProfileResult (Some alg) t) sa'
        | None => RunDone true default_profile sa'
        end
      else RunDone false default_profile sa'
  end.

(* ------------------------------------------------------------------ *)
(** ** The picker's monad: an event log with errors and process aborts *)

Inductive Event :=
| EvOperandAllocated (buf : DeviceMemoryBase)
| EvMemset32 (buf : DeviceMemoryBase) (bits : Z) (size : Z)
| EvMemcpy (dst : DeviceMemoryBase) (src : list Z) (size : Z)
| EvMemZero (buf : DeviceMemoryBase) (size : Z)
| EvBlockHostUntilDone
| EvTrial (alg : AlgorithmDesc) (launch_ok : bool) (profile : ProfileResult)
          (scratch_bytes : Z)
| EvComparatorCreated (alg : AlgorithmDesc) (buf : DeviceMemoryBase)
| EvCompared (reference candidate : AlgorithmDesc) (result : StatusOr bool)
| EvLogError (msg : string).

Inductive Outcome (A : Type) :=
| Ok (a : A)
| Err (s : Status)
| Crash.
Arguments Ok {A} a.
Arguments Err {A} s.
Arguments Crash {A}.

Definition M (A : Type) := list Event -> Outcome A * list Event.

Definition ret {A} (a : A) : M A := fun log => (Ok a, log).
Definition bind {A B} (m : M A) (k : A -> M B) : M B :=
  fun log => match m log with
             | (Ok a, log') => k a log'
             | (Err s, log') => (Err s, log')
             | (Crash, log') => (Crash, log')
             end.
Definition emit (ev : Event) : M unit := fun log => (Ok tt, (log ++ [ev])%list).
Definition fail {A} (s : Status) : M A := fun log => (Err s, log).
Definition crash {A} : M A := fun log => (Crash, log).
(** [CHECK(b)]. *)
Definition check (b : bool) : M unit := if b then ret tt else crash.

Notation "x <- c1 ;; c2" := (bind c1 (fun x => c2))
  (at level 61, c1 at next level, right associativity).
Notation "c1 ;; c2" := (bind c1 (fun _ : unit => c2))
  (at level 61, right associativity).

(* ------------------------------------------------------------------ *)
(** ** PickBestAlgorithm *)

(** [Eigen::half(0.1f)]: sign 0, exponent 01011, mantissa 1001100110. *)
Definition kBroadcastedConstantHalf : Z := 11878.  (* 0x2E66 *)

(** The bytes of [halfs[2]] on the little-endian host. *)
Definition halfs_bytes : list Z :=
  [Z.land kBroadcastedConstantHalf 255; Z.shiftr kBroadcastedConstantHalf 8;
   Z.land kBroadcastedConstantHalf 255; Z.shiftr kBroadcastedConstantHalf 8].

(** [memcpy(&bits, halfs, sizeof(bits))]. *)
Definition halfs_bits : Z :=
  Z.lor kBroadcastedConstantHalf (Z.shiftl kBroadcastedConstantHalf 16).

(** The [initialize_f16] lambda. *)
Definition initialize_f16 (buffer : DeviceMemoryBase) : M unit :=
  check (Z.eqb (dm_opaque buffer mod 4) 0) ;;
  let left_over_bytes := dm_size buffer mod 4 in
  check (Z.eqb (left_over_bytes mod 2) 0) ;;
  let aligned_size := dm_size buffer / 4 * 4 in
  emit (EvMemset32 buffer halfs_bits aligned_size) ;;
  let left_over := mkDeviceMemory (dm_opaque buffer + aligned_size) left_over_bytes in
  emit (EvMemcpy left_over halfs_bytes left_over_bytes).

(** The lambda selecting [result_buf]. *)
Definition result_buf (kind : CudnnConvKind)
    (input_buf filter_buf output_buf : DeviceMemoryBase) : DeviceMemoryBase :=
  match kind with
  | kBackwardFilter => filter_buf
  | kBackwardInput => input_buf
  | kForward => output_buf
  end.

(** The optional [F16BufferComparator], bound to the buffer it was created
    on and holding the output of the reference algorithm. *)
Record F16BufferComparator := mkComparator {
  cmp_buffer : DeviceMemoryBase;
  cmp_reference : AlgorithmDesc
}.

Record LoopState := mkLoopState {
  best_result : ProfileResult;
  best_result_bytes_used : Z;
  comparator : option F16BufferComparator;
  first_algorithm : option AlgorithmDesc
}.

Definition initial_loop_state : LoopState :=
  mkLoopState default_profile 0 None None.

Definition set_best (st : LoopState) (p : ProfileResult) (bytes : Z) : LoopState :=
  mkLoopState p bytes (comparator st) (first_algorithm st).

Section Picker.

Variable env : Env.
Variable allocator : DeviceAllocateFn.
Variable cross_check_enabled : bool.
Variable rbuf : DeviceMemoryBase.

Definition crash_on_checking_failure : bool := env_crash_on_verification_failures env.

(** The cross-check block run for a successful candidate [alg]. *)
Definition cross_check_step (alg : AlgorithmDesc) (st : LoopState) : M LoopState :=
  match comparator st with
  | Some c =>
      let result := env_compare_equal env (cmp_reference c) alg in
      emit (EvCompared (cmp_reference c) alg result) ;;
      match result with
      | SErr _ =>
          emit (EvLogError "Unable to compare") ;;
          check (negb crash_on_checking_failure) ;; ret st
      | SOk false =>
          emit (EvLogError "Results mismatch between different convolution algorithms.") ;;
          check (negb crash_on_checking_failure) ;; ret st
      | SOk true => ret st
      end
  | None =>
      if cross_check_enabled then
        match env_comparator_create env rbuf alg with
        | SOk _ =>
            emit (EvComparatorCreated alg rbuf) ;;
            ret (mkLoopState (best_result st) (best_result_bytes_used st)
                   (Some (mkComparator rbuf alg)) (Some alg))
        | SErr _ =>
            emit (EvLogError "Fail to initialize buffer comparator: ") ;;
            check (negb crash_on_checking_failure) ;; ret st
        end
      else ret st
  end.

(** One iteration of the candidate loop. *)
Definition trial (alg : AlgorithmDesc) (st : LoopState) : M LoopState :=
  let scratch_allocator := Scratch.create (env_device_ordinal env) in
  match RunCudnnConvolution env allocator alg scratch_allocator with
  | RunCrash => crash
  | RunDone launch_ok profile_result sa =>
      emit (EvTrial alg launch_ok profile_result (Scratch.TotalAllocatedBytes sa)) ;;
      if launch_ok && is_valid profile_result then
        st1 <- cross_check_step alg st ;;
        let scratch_bytes_used := Scratch.TotalAllocatedBytes sa in
        if Z.ltb (elapsed_time_in_ms profile_result)
                 (elapsed_time_in_ms (best_result st1))
        then ret (set_best st1 profile_result scratch_bytes_used)
        else ret st1
      else ret st
  end.

Fixpoint trial_loop (algs : list AlgorithmDesc) (st : LoopState) : M LoopState :=
  match algs with
  | [] => ret st
  | alg :: rest => st' <- trial alg st ;; trial_loop rest st'
  end.

End Picker.

(** [allocator_] when set, otherwise the [StreamExecutorMemoryAllocator]. *)
Definition picker_allocator (env : Env) : DeviceAllocateFn :=
  match env_allocator_ env with
  | Some a => a
  | None => env_se_allocator env
  end.

(** A [ScratchAllocator::AllocateBytes] call inside [TF_ASSIGN_OR_RETURN],
    the allocator threaded through. *)
Definition alloc_or_return (allocator : DeviceAllocateFn)
    (sa : Scratch.ScratchAllocator) (n : Z)
    : M (DeviceMemoryBase * Scratch.ScratchAllocator) :=
  match Scratch.AllocateBytes allocator sa n with
  | (Scratch.AllocCrash, _) => crash
  | (Scratch.AllocErr s, _) => fail s
  | (Scratch.AllocOk b, sa') => emit (EvOperandAllocated b) ;; ret (b, sa')
  end.

Definition all_failed_message (instr : HloInstruction) : string :=
  "All algorithms tried for convolution " ++ ToString instr
  ++ " failed.  Falling back to default algorithm.".

Definition same_element_type (a b : Shape) : bool :=
  match element_type a, element_type b with
  | Some x, Some y => PrimitiveType_eqb x y
  | None, None => true
  | _, _ => false
  end.

Definition is_F16 (s : Shape) : bool :=
  match element_type s with Some t => PrimitiveType_eqb t F16 | None => false end.

(** The buffer initialization of [PickBestAlgorithm], before
    [BlockHostUntilDone]. *)
Definition initialize_buffers (cross_check_enabled : bool)
    (input_buf filter_buf output_buf : DeviceMemoryBase) : M unit :=
  if cross_check_enabled then
    initialize_f16 input_buf ;; initialize_f16 filter_buf ;; initialize_f16 output_buf
  else
    emit (EvMemZero input_buf (dm_size input_buf)) ;;
    emit (EvMemZero filter_buf (dm_size filter_buf)) ;;
    emit (EvMemZero output_buf (dm_size output_buf)).

(** [CudnnConvolutionAlgorithmPicker::PickBestAlgorithm].  The device lock
    and the stream are not observable in this model. *)
Definition PickBestAlgorithm (env : Env) (kind : CudnnConvKind)
    (input_shape filter_shape output_shape : Shape) (window : Window)
    (dnums : ConvolutionDimensionNumbers) (instr : HloInstruction)
    : M (Z * bool * Z) :=
  check (same_element_type input_shape filter_shape) ;;
  check (same_element_type input_shape output_shape) ;;
  let cross_check_enabled := is_F16 input_shape in
  let device_ordinal := env_device_ordinal env in
  let allocator := picker_allocator env in
  let input_output_allocator := Scratch.create device_ordinal in
  p1 <- alloc_or_return allocator input_output_allocator (ByteSizeOf input_shape) ;;
  let (input_buf, sa1) := p1 in
  p2 <- alloc_or_return allocator sa1 (ByteSizeOf filter_shape) ;;
  let (filter_buf, sa2) := p2 in
  p3 <- alloc_or_return allocator sa2 (ByteSizeOf output_shape) ;;
  let (output_buf, _) := p3 in
  initialize_buffers cross_check_enabled input_buf filter_buf output_buf ;;
  emit EvBlockHostUntilDone ;;
  (match env_block_host_until_done env with
   | SErr s => fail s
   | SOk _ => ret tt
   end) ;;
  let rbuf := result_buf kind input_buf filter_buf output_buf in
  let use_winograd_nonfused :=
    ShouldIncludeWinogradNonfusedAlgo (env_dnn_version env) input_shape output_shape dnums in
  algs <- (match env_get_algorithms env kind use_winograd_nonfused with
           | Some l => ret l
           | None => crash
           end) ;;
  st <- trial_loop env allocator cross_check_enabled rbuf algs initial_loop_state ;;
  if is_valid (best_result st) then
    ret (algo_id (algorithm (best_result st)),
         tensor_ops_enabled (algorithm (best_result st)),
         best_result_bytes_used st)
  else fail (InternalError (all_failed_message instr)).

(* ------------------------------------------------------------------ *)
(** ** The HLO computation and RunOnInstruction *)

Record HloComputation := mkComputation {
  hc_instructions : list HloInstruction;
  hc_root : Z;
  hc_next_id : Z
}.

Definition lookup_instr (c : HloComputation) (id : Z) : option HloInstruction :=
  find (fun i => Z.eqb (hi_id i) id) (hc_instructions c).

Definition with_id (i : HloInstruction) (id : Z) : HloInstruction :=
  mkHlo id (hi_name i) (hi_opcode i) (hi_shape i) (hi_operands i)
    (hi_custom_call_target i) (hi_window i) (hi_dnums i) (hi_backend_config i)
    (hi_tuple_index i) (hi_literal i).

(** [HloComputation::AddInstruction]: the new instruction gets a fresh id. *)
Definition AddInstruction (c : HloComputation) (i : HloInstruction)
    : HloComputation * Z :=
  let id := hc_next_id c in
  (mkComputation (hc_instructions c ++ [with_id i id]) (hc_root c) (id + 1), id).

Definition replace_operand (old new : Z) (op : Z) : Z :=
  if Z.eqb op old then new else op.

Definition replace_uses (old new : Z) (i : HloInstruction) : HloInstruction :=
  mkHlo (hi_id i) (hi_name i) (hi_opcode i) (hi_shape i)
    (map (replace_operand old new) (hi_operands i))
    (hi_custom_call_target i) (hi_window i) (hi_dnums i) (hi_backend_config i)
    (hi_tuple_index i) (hi_literal i).

(** Modelled from the spec: the splice done by
    [HloComputation::ReplaceInstruction]: every use of [old] (and the root)
    now refers to [new], and [old] is removed. *)
Definition ReplaceUsesAndRemove (c : HloComputation) (old new : Z) : HloComputation :=
  mkComputation
    (map (replace_uses old new)
         (filter (fun i => negb (Z.eqb (hi_id i) old)) (hc_instructions c)))
    (replace_operand old new (hc_root c))
    (hc_next_id c).

Fixpoint dims_eqb (a b : list Z) : bool :=
  match a, b with
  | [], [] => true
  | x :: a', y :: b' => Z.eqb x y && dims_eqb a' b'
  | _, _ => false
  end.

(** [ShapeUtil::Compatible] (shapes carry no layout here): arrays of the
    same element type and dimensions, tuples compatible element-wise. *)
Fixpoint Compatible (a b : Shape) : bool :=
  match a, b with
  | ArrayShape t1 d1, ArrayShape t2 d2 => PrimitiveType_eqb t1 t2 && dims_eqb d1 d2
  | TupleShape l1, TupleShape l2 =>
      (fix compatible_all (l1 l2 : list Shape) : bool :=
         match l1, l2 with
         | [], [] => true
         | x :: r1, y :: r2 => Compatible x y && compatible_all r1 r2
         | _, _ => false
         end) l1 l2
  | _, _ => false
  end.

(** The status of the failing [TF_RET_CHECK] of [ReplaceInstruction] (its
    message is the checked condition; the file, line and shapes the real
    message adds are left out). *)
Definition replace_shape_error : Status :=
  InternalError "ShapeUtil::Compatible(old_instruction->shape(), new_instruction->shape())".

(** [HloComputation::ReplaceInstruction(old_instruction, new_instruction)]:
    [TF_RET_CHECK(ShapeUtil::Compatible(old_instruction->shape(),
    new_instruction->shape()))], then the splice.  The two instructions are
    passed as the records their pointers refer to. *)
Definition ReplaceInstruction (c : HloComputation)
    (old_instruction new_instruction : HloInstruction) : StatusOr HloComputation :=
  if Compatible (hi_shape old_instruction) (hi_shape new_instruction)
  then SOk (ReplaceUsesAndRemove c (hi_id old_instruction) (hi_id new_instruction))
  else SErr replace_shape_error.

Definition kCudnnConvForwardCallTarget : string := "__cudnn$convForward".
Definition kCudnnConvBackwardInputCallTarget : string := "__cudnn$convBackwardInput".
Definition kCudnnConvBackwardFilterCallTarget : string := "__cudnn$convBackwardFilter".

Definition HloOpcode_eqb (a b : HloOpcode) : bool :=
  match a, b with
  | kCustomCall, kCustomCall | kTuple, kTuple | kGetTupleElement, kGetTupleElement
  | kConstant, kConstant | kOtherOpcode, kOtherOpcode => true
  | _, _ => false
  end.

Definition IsCustomCallToDnnConvolution (i : HloInstruction) : bool :=
  HloOpcode_eqb (hi_opcode i) kCustomCall &&
  (String.eqb (hi_custom_call_target i) kCudnnConvForwardCallTarget ||
   String.eqb (hi_custom_call_target i) kCudnnConvBackwardInputCallTarget ||
   String.eqb (hi_custom_call_target i) kCudnnConvBackwardFilterCallTarget).

Definition empty_dnums : ConvolutionDimensionNumbers := mkDnums 0 0 [] 0 0 [] 0 0 [].

(** [HloInstruction::CreateCustomCall] followed by [set_window] and
    [set_convolution_dimension_numbers]. *)
Definition CreateConvCustomCall (shape : Shape) (operands : list Z) (target : string)
    (window : Window) (dnums : ConvolutionDimensionNumbers) : HloInstruction :=
  mkHlo 0 "custom-call" kCustomCall shape operands target window dnums None 0 [].

(** [HloInstruction::set_backend_config(proto)]: the status of converting
    the proto to its raw string ([BackendConfigToRawString], a JSON
    rendering), and the instruction holding the config when that succeeds.
    Rendering a [CudnnConvBackendConfig] (an int64 and a bool field) does
    not fail. *)
Definition set_backend_config (i : HloInstruction) (config : CudnnConvBackendConfig)
    : StatusOr HloInstruction :=
  SOk (mkHlo (hi_id i) (hi_name i) (hi_opcode i) (hi_shape i) (hi_operands i)
         (hi_custom_call_target i) (hi_window i) (hi_dnums i) (Some config)
         (hi_tuple_index i) (hi_literal i)).

Definition CreateGetTupleElement (shape : Shape) (operand : Z) (index : Z) : HloInstruction :=
  mkHlo 0 "get-tuple-element" kGetTupleElement shape [operand] "" [] empty_dnums None index [].

(** [HloInstruction::CreateConstant(LiteralUtil::CreateR1<uint8>({}))]. *)
Definition CreateEmptyU8Constant : HloInstruction :=
  mkHlo 0 "constant" kConstant (MakeShape U8 [0]) [] "" [] empty_dnums None 0 [].

Definition CreateTuple (shapes : list Shape) (operands : list Z) : HloInstruction :=
  mkHlo 0 "tuple" kTuple (MakeTupleShape shapes) operands "" [] empty_dnums None 0 [].

Definition operand_shape (c : HloComputation) (i : HloInstruction) (k : nat)
    : option Shape :=
  match lookup_instr c (nth k (hi_operands i) (-1)) with
  | Some o => Some (hi_shape o)
  | None => None
  end.

(** The call-target dispatch of [RunOnInstruction]: the [PickBestAlgorithm]
    call it makes, [None] for an unknown target. *)
Definition PickForInstruction (env : Env) (instr : HloInstruction)
    (lhs_shape rhs_shape : Shape) : option (M (Z * bool * Z)) :=
  let call_target := hi_custom_call_target instr in
  let conv_result_shape := tuple_shapes (hi_shape instr) 0 in
  let window := hi_window instr in
  let dnums := hi_dnums instr in
  if String.eqb call_target kCudnnConvForwardCallTarget then
    Some (PickBestAlgorithm env kForward lhs_shape rhs_shape conv_result_shape
            window dnums instr)
  else if String.eqb call_target kCudnnConvBackwardInputCallTarget then
    Some (PickBestAlgorithm env kBackwardInput conv_result_shape rhs_shape lhs_shape
            window dnums instr)
  else if String.eqb call_target kCudnnConvBackwardFilterCallTarget then
    Some (PickBestAlgorithm env kBackwardFilter lhs_shape conv_result_shape rhs_shape
            window dnums instr)
  else None.

(** [CudnnConvolutionAlgorithmPicker::RunOnInstruction]: the changed flag,
    the computation afterwards and the events logged. *)
Definition RunOnInstruction (env : Env) (c : HloComputation) (instr_id : Z)
    : Outcome bool * HloComputation * list Event :=
  match lookup_instr c instr_id with
  | None => (Crash, c, [])
  | Some instr =>
  if negb (IsCustomCallToDnnConvolution instr) then (Crash, c, []) else
  match operand_shape c instr 0, operand_shape c instr 1 with
  | Some lhs_shape, Some rhs_shape =>
    let call_target := hi_custom_call_target instr in
    let conv_result_shape := tuple_shapes (hi_shape instr) 0 in
    let window := hi_window instr in
    let dnums := hi_dnums instr in
    let pick := PickForInstruction env instr lhs_shape rhs_shape in
    match pick with
    | None => (Crash, c, [])                           (* LOG(FATAL) *)
    | Some m =>
      match m [] with
      | (Crash, log) => (Crash, c, log)
      | (Err s, log) => (Ok false, c, (log ++ [EvLogError (status_message s)])%list)
      | (Ok (algorithm, tensor_ops_enabled, scratch_bytes), log) =>
          let new_call_shape :=
            MakeTupleShape [tuple_shapes (hi_shape instr) 0; MakeShape U8 [scratch_bytes]] in
          let backend_config := mkBackendConfig algorithm tensor_ops_enabled in
          let call :=
            CreateConvCustomCall new_call_shape
              [nth 0 (hi_operands instr) (-1); nth 1 (hi_operands instr) (-1)]
              call_target window dnums in
          (* [set_backend_config] mutates the call already added to the
             computation; the id it gets does not depend on the config. *)
          match set_backend_config call backend_config with
          | SErr s => let (c1, _) := AddInstruction c call in (Err s, c1, log)
          | SOk call' =>
          let (c1, new_call) := AddInstruction c call' in
          let gte := CreateGetTupleElement (tuple_shapes new_call_shape 0) new_call 0 in
          let (c2, gte_id) := AddInstruction c1 gte in
          let (c3, const_id) := AddInstruction c2 CreateEmptyU8Constant in
          let tuple :=
            CreateTuple [hi_shape gte; hi_shape CreateEmptyU8Constant] [gte_id; const_id] in
          let (c4, new_tuple) := AddInstruction c3 tuple in
          match ReplaceInstruction c4 instr (with_id tuple new_tuple) with
          | SErr s => (Err s, c4, log)
          | SOk c5 => (Ok true, c5, log)
          end
          end
      end
    end
  | _, _ => (Crash, c, [])
  end
  end.

(* ------------------------------------------------------------------ *)
(** ** Observations on the event log *)

(** The candidate trials recorded in a log, in order. *)
Fixpoint trials_of (log : list Event) : list (AlgorithmDesc * bool * ProfileResult * Z) :=
  match log with
  | [] => []
  | EvTrial a ok p b :: rest => (a, ok, p, b) :: trials_of rest
  | _ :: rest => trials_of rest
  end.

(** The trials whose launch succeeded with a valid profile: their profile
    and the scratch bytes they used. *)
Fixpoint valid_trials (log : list Event) : list (ProfileResult * Z) :=
  match log with
  | [] => []
  | EvTrial _ ok p b :: rest =>
      if ok && is_valid p then (p, b) :: valid_trials rest else valid_trials rest
  | _ :: rest => valid_trials rest
  end.

Definition is_trial (ev : Event) : bool :=
  match ev with EvTrial _ _ _ _ => true | _ => false end.

(** The comparator creations and comparisons recorded in a log. *)
Fixpoint comparators_created (log : list Event) : list (AlgorithmDesc * DeviceMemoryBase) :=
  match log with
  | [] => []
  | EvComparatorCreated a b :: rest => (a, b) :: comparators_created rest
  | _ :: rest => comparators_created rest
  end.

(** The candidates whose launch succeeded with a valid profile, in order. *)
Fixpoint successful_algs (log : list Event) : list AlgorithmDesc :=
  match log with
  | [] => []
  | EvTrial a ok p _ :: rest =>
      if ok && is_valid p then a :: successful_algs rest else successful_algs rest
  | _ :: rest => successful_algs rest
  end.

(** The comparisons against the reference: reference, candidate, result. *)
Fixpoint comparisons_of (log : list Event)
    : list (AlgorithmDesc * AlgorithmDesc * StatusOr bool) :=
  match log with
  | [] => []
  | EvCompared r c res :: rest => (r, c, res) :: comparisons_of rest
  | _ :: rest => comparisons_of rest
  end.

(** The number of error-level diagnostics in a log. *)
Fixpoint error_count (log : list Event) : nat :=
  match log with
  | [] => O
  | EvLogError _ :: rest => S (error_count rest)
  | _ :: rest => error_count rest
  end.

(** A comparison that failed or reported a mismatch. *)
Definition comparison_failed (x : AlgorithmDesc * AlgorithmDesc * StatusOr bool) : bool :=
  match snd x with SOk true => false | _ => true end.

(** Whether [F16BufferComparator::Create] succeeds after candidate [alg]. *)
Definition creatable (env : Env) (rbuf : DeviceMemoryBase) (alg : AlgorithmDesc) : bool :=
  match env_comparator_create env rbuf alg with SOk _ => true | SErr _ => false end.

(** Splits the successful candidates at the first one whose comparator can
    be built: the candidates before it, and it with the candidates after. *)
Fixpoint split_reference (env : Env) (rbuf : DeviceMemoryBase) (succ : list AlgorithmDesc)
    : list AlgorithmDesc * option (AlgorithmDesc * list AlgorithmDesc) :=
  match succ with
  | [] => ([], None)
  | a :: rest =>
      if creatable env rbuf a then ([], Some (a, rest))
      else let (failed, o) := split_reference env rbuf rest in (a :: failed, o)
  end.

Definition reference_split (env : Env) (cc : bool) (rbuf : DeviceMemoryBase)
    (succ : list AlgorithmDesc) : list AlgorithmDesc * option (AlgorithmDesc * list AlgorithmDesc) :=
  if cc then split_reference env rbuf succ else ([], None).

(** One step of the running best over the valid trials: a trial replaces
    the best exactly when it is strictly faster. *)
Definition best_step (acc : ProfileResult * Z) (t : ProfileResult * Z) : ProfileResult * Z :=
  if Z.ltb (elapsed_time_in_ms (fst t)) (elapsed_time_in_ms (fst acc)) then t else acc.

(** The stream operations [initialize_f16] queues for one buffer. *)
Definition f16_events (b : DeviceMemoryBase) : list Event :=
  [EvMemset32 b halfs_bits (dm_size b / 4 * 4);
   EvMemcpy (mkDeviceMemory (dm_opaque b + dm_size b / 4 * 4) (dm_size b mod 4))
     halfs_bytes (dm_size b mod 4)].

Definition init_events (cross_check_enabled : bool) (i f o : DeviceMemoryBase) : list Event :=
  if cross_check_enabled then (f16_events i ++ f16_events f ++ f16_events o)%list
  else [EvMemZero i (dm_size i); EvMemZero f (dm_size f); EvMemZero o (dm_size o)].

(** The checks [initialize_f16] makes on a buffer. *)
Definition f16_ok (b : DeviceMemoryBase) : Prop :=
  dm_opaque b mod 4 = 0 /\ (dm_size b mod 4) mod 2 = 0.

(** The log of a picking call up to [BlockHostUntilDone]. *)
Definition prologue_log (cross_check_enabled : bool) (i f o : DeviceMemoryBase) : list Event :=
  ([EvOperandAllocated i; EvOperandAllocated f; EvOperandAllocated o]
   ++ init_events cross_check_enabled i f o ++ [EvBlockHostUntilDone])%list.

(** The value [PickBestAlgorithm] returns once its loop has ended. *)
Definition pick_epilogue (instr : HloInstruction) (lr : Outcome LoopState)
    : Outcome (Z * bool * Z) :=
  match lr with
  | Ok st =>
      if is_valid (best_result st) then
        Ok (algo_id (algorithm (best_result st)),
            tensor_ops_enabled (algorithm (best_result st)),
            best_result_bytes_used st)
      else Err (InternalError (all_failed_message instr))
  | Err s => Err s
  | Crash => Crash
  end.

(* ------------------------------------------------------------------ *)
(** ** Device memory semantics of the stream operations *)

(** Modelled from the spec: the effect of [ThenMemset32], [ThenMemcpy] and
    [ThenMemZero] on device memory, one byte per address.  [ThenMemset32]
    repeats the 32-bit pattern, little-endian. *)
Definition Memory := Z -> Z.

Definition in_range (base size a : Z) : bool := Z.leb base a && Z.ltb a (base + size).

Definition byte_of (bits k : Z) : Z := Z.land (Z.shiftr bits (8 * k)) 255.

Definition apply_event (m : Memory) (ev : Event) : Memory :=
  match ev with
  | EvMemset32 buf bits size =>
      fun a => if in_range (dm_opaque buf) size a
               then byte_of bits ((a - dm_opaque buf) mod 4) else m a
  | EvMemcpy dst src size =>
      fun a => if in_range (dm_opaque dst) size a
               then nth (Z.to_nat (a - dm_opaque dst)) src 0 else m a
  | EvMemZero buf size =>
      fun a => if in_range (dm_opaque buf) size a then 0 else m a
  | _ => m
  end.

Definition apply_events (m : Memory) (log : list Event) : Memory :=
  fold_left apply_event log m.

(** The byte at offset [k] of a buffer filled with [Eigen::half(0.1f)]
    values: 0x66 then 0x2E. *)
Definition half_pattern_byte (k : Z) : Z := if Z.even k then 102 else 46.

(* ------------------------------------------------------------------ *)
(** ** The Winograd size as the specification writes it *)

(** The spec's [total_size], in exact arithmetic, to compare with the
    code's [int64] computation. *)
Definition winograd_total_size_spec (input_shape output_shape : Shape)
    (dnums : ConvolutionDimensionNumbers) : Z :=
  let batch := dimensions input_shape (input_batch_dimension dnums) in
  let in_depths := dimensions input_shape (input_feature_dimension dnums) in
  let rows := dimensions input_shape (input_spatial_dimension dnums 0) in
  let cols := if Z.eqb (input_spatial_dimensions_size dnums) 1 then 1
              else dimensions input_shape (input_spatial_dimension dnums 1) in
  let out_depths := dimensions output_shape (output_feature_dimension dnums) in
  CeilOfRatio batch 16 * Z.max in_depths out_depths * rows * cols * 4.

(** The environment with a different answer to the library version query. *)
Definition with_dnn_version (env : Env) (v : StatusOr VersionInfo) : Env :=
  mkEnv (env_allocator_ env) (env_se_allocator env) (env_device_ordinal env) v
    (env_block_host_until_done env) (env_get_algorithms env) (env_run env)
    (env_comparator_create env) (env_compare_equal env)
    (env_crash_on_verification_failures env).

(* ------------------------------------------------------------------ *)
(** ** AlgorithmToString *)

(** [AlgorithmToString]: [absl::StrCat] of the algorithm id (decimal),
    followed by ["+TC"] when tensor ops are enabled. *)
Definition AlgorithmToString (algo : AlgorithmDesc) : string :=
  if tensor_ops_enabled algo then string_of_Z (algo_id algo) ++ "+TC"
  else string_of_Z (algo_id algo).

(** Reading decimal digits back, to reason about the rendering. *)
Definition is_digit (c : ascii) : bool :=
  Nat.leb 48 (nat_of_ascii c) && Nat.leb (nat_of_ascii c) 57.

Fixpoint all_digits (s : string) : bool :=
  match s with
  | EmptyString => true
  | String c s' => is_digit c && all_digits s'
  end.

Fixpoint decimal_value (s : string) (acc : Z) : Z :=
  match s with
  | EmptyString => acc
  | String c s' => decimal_value s' (acc * 10 + (Z.of_nat (nat_of_ascii c) - 48))
  end.

(** A text that does not start with a digit. *)
Definition no_digit_head (s : string) : Prop :=
  match s with EmptyString => True | String c _ => is_digit c = false end.

(* ------------------------------------------------------------------ *)
(** ** LockGpu *)

(** The process-global [mutexes] map of [LockGpu]: keyed by the platform
    (a pointer, compared by identity) and the device ordinal; each mutex is
    named by the order in which [emplace] constructed it. *)
Record GpuMutexes := mkGpuMutexes {
  mutexes : list ((Z * Z) * nat);
  mutexes_constructed : nat
}.

(** The map as the static initializer leaves it. *)
Definition no_gpu_mutexes : GpuMutexes := mkGpuMutexes [] O.

Definition key_eqb (a b : Z * Z) : bool := Z.eqb (fst a) (fst b) && Z.eqb (snd a) (snd b).

Definition find_mutex (key : Z * Z) (l : list ((Z * Z) * nat)) : option nat :=
  match find (fun e => key_eqb (fst e) key) l with
  | Some (_, m) => Some m
  | None => None
  end.

(** [LockGpu]: under the global lock, [emplace] returns the entry of the
    key when there is one and constructs a new mutex for a new key; the
    returned [mutex_lock] holds [it->second]. *)
Definition LockGpu (g : GpuMutexes) (platform device_ordinal : Z) : nat * GpuMutexes :=
  let key := (platform, device_ordinal) in
  match find_mutex key (mutexes g) with
  | Some m => (m, g)
  | None =>
      let m := mutexes_constructed g in
      (m, mkGpuMutexes (mutexes g ++ [(key, m)])%list (S m))
  end.

(** Successive [LockGpu] calls of one process, for the given
    (platform, device ordinal) pairs: the mutex each call locks. *)
Fixpoint LockGpu_calls (g : GpuMutexes) (devices : list (Z * Z)) : list nat * GpuMutexes :=
  match devices with
  | [] => ([], g)
  | (p, d) :: rest =>
      let (m, g1) := LockGpu g p d in
      let (ms, g2) := LockGpu_calls g1 rest in
      (m :: ms, g2)
  end.

(** The invariant of the map: a mutex belongs to one key only, and every
    mutex in it has been constructed. *)
Definition mutexes_ok (g : GpuMutexes) : Prop :=
  (forall k1 k2 m, find_mutex k1 (mutexes g) = Some m ->
                   find_mutex k2 (mutexes g) = Some m -> k1 = k2) /\
  (forall k m, find_mutex k (mutexes g) = Some m -> (m < mutexes_constructed g)%nat).

(* ------------------------------------------------------------------ *)
(** ** RunOnComputation and Run *)

(** The first loop of [RunOnComputation]: the convolution custom calls of
    the computation, in instruction order, collected before any rewrite. *)
Definition convs_of (c : HloComputation) : list Z :=
  map hi_id (filter IsCustomCallToDnnConvolution (hc_instructions c)).

(** The second loop: [TF_ASSIGN_OR_RETURN] on each [RunOnInstruction],
    then [changed |= result]. *)
Fixpoint run_on_convs (env : Env) (convs : list Z) (c : HloComputation) (changed : bool)
    : Outcome bool * HloComputation * list Event :=
  match convs with
  | [] => (Ok changed, c, [])
  | instr :: rest =>
      match RunOnInstruction env c instr with
      | (Ok result, c1, log1) =>
          let '(r, c2, log2) := run_on_convs env rest c1 (changed || result) in
          (r, c2, (log1 ++ log2)%list)
      | (Err s, c1, log1) => (Err s, c1, log1)
      | (Crash, c1, log1) => (Crash, c1, log1)
      end
  end.

(** [CudnnConvolutionAlgorithmPicker::RunOnComputation]. *)
Definition RunOnComputation (env : Env) (c : HloComputation)
    : Outcome bool * HloComputation * list Event :=
  run_on_convs env (convs_of c) c false.

(** An [HloModule]: its computations in the post order that
    [MakeNonfusionComputations] follows, each flagged [true] when it is a
    fusion computation. *)
Record HloModule := mkModule { hm_computations : list (HloComputation * bool) }.

(** The loop of [Run] over [MakeNonfusionComputations]: fusion
    computations are skipped, the others go through [RunOnComputation]
    under [TF_ASSIGN_OR_RETURN], then [changed |= result]. *)
Fixpoint run_on_computations (env : Env) (comps : list (HloComputation * bool))
    (changed : bool) : Outcome bool * list (HloComputation * bool) * list Event :=
  match comps with
  | [] => (Ok changed, [], [])
  | (c, true) :: rest =>
      let '(r, rest', log) := run_on_computations env rest changed in
      (r, (c, true) :: rest', log)
  | (c, false) :: rest =>
      match RunOnComputation env c with
      | (Ok result, c1, log1) =>
          let '(r, rest', log2) := run_on_computations env rest (changed || result) in
          (r, (c1, false) :: rest', (log1 ++ log2)%list)
      | (Err s, c1, log1) => (Err s, (c1, false) :: rest, log1)
      | (Crash, c1, log1) => (Crash, (c1, false) :: rest, log1)
      end
  end.

(** [CudnnConvolutionAlgorithmPicker::Run]. *)
Definition Run (env : Env) (m : HloModule) : Outcome bool * HloModule * list Event :=
  let '(r, comps, log) := run_on_computations env (hm_computations m) false in
  (r, mkModule comps, log).

(* ------------------------------------------------------------------ *)
(** ** Phases of a picking call *)

(** The events of the setup before [BlockHostUntilDone]: operand
    allocations and buffer initialization. *)
Definition setup_event (ev : Event) : bool :=
  match ev with
  | EvOperandAllocated _ | EvMemset32 _ _ _ | EvMemcpy _ _ _ | EvMemZero _ _ => true
  | _ => false
  end.

(** The sum of a list of byte counts. *)
Definition sum_bytes (l : list Z) : Z := fold_right Z.add 0 l.

(* ------------------------------------------------------------------ *)
(** ** Concrete environments used by the examples *)

Module Concrete.

Definition alg1 : AlgorithmDesc := mkAlgorithmDesc 1 false.
Definition alg2 : AlgorithmDesc := mkAlgorithmDesc 2 true.
Definition alg3 : AlgorithmDesc := mkAlgorithmDesc 3 false.

(** A device allocator handing out 256-aligned blocks. *)
Definition dev_alloc : DeviceAllocateFn :=
  fun _ n _ => SOk (mkDeviceMemory 4096 n).

Definition outcome_of (alg : AlgorithmDesc) : ConvOutcome :=
  match algo_id alg with
  | 1 => mkConvOutcome [100] true (Some 10)
  | 2 => mkConvOutcome [200; 50] true (Some 5)
  | 3 => mkConvOutcome [] true (Some 5)
  | _ => mkConvOutcome [] false None
  end.

Definition env_with (version : StatusOr VersionInfo) (algs : list AlgorithmDesc)
    (run : AlgorithmDesc -> ConvOutcome)
    (create : DeviceMemoryBase -> AlgorithmDesc -> StatusOr unit)
    (cmp : AlgorithmDesc -> AlgorithmDesc -> StatusOr bool) (crash_flag : bool) : Env :=
  mkEnv None dev_alloc 0 version (SOk tt) (fun _ _ => Some algs) run create cmp crash_flag.

Definition env1 : Env :=
  env_with (SOk (mkVersion 7 0 0)) [alg1; alg2; alg3] outcome_of
    (fun _ _ => SOk tt) (fun _ _ => SOk true) false.

Definition dn2d : ConvolutionDimensionNumbers := mkDnums 0 1 [2; 3] 0 1 [2; 3] 0 1 [2; 3].

Definition in_f32 : Shape := ArrayShape F32 [1; 2; 4; 4].
Definition filt_f32 : Shape := ArrayShape F32 [3; 2; 1; 1].
Definition out_f32 : Shape := ArrayShape F32 [1; 3; 4; 4].

Definition in_f16 : Shape := ArrayShape F16 [1; 2; 4; 4].
Definition filt_f16 : Shape := ArrayShape F16 [3; 2; 1; 1].
Definition out_f16 : Shape := ArrayShape F16 [1; 3; 4; 4].

Definition conv_instr : HloInstruction :=
  mkHlo 3 "conv" kCustomCall (TupleShape [out_f32; ArrayShape U8 [0]]) [1; 2]
    kCudnnConvForwardCallTarget [] dn2d None 0 [].

Definition param (id : Z) (s : Shape) : HloInstruction :=
  mkHlo id "param" kOtherOpcode s [] "" [] empty_dnums None 0 [].

Definition comp1 : HloComputation :=
  mkComputation [param 1 in_f32; param 2 filt_f32; conv_instr] 3 4.

End Concrete.

Module Concrete2.
Import Concrete.

(** A one-dimensional convolution whose operands each fit the 4 GiB scratch
    budget in F16. *)
Definition dn1d : ConvolutionDimensionNumbers := mkDnums 0 1 [2] 0 1 [2] 0 1 [2].
Definition wide_in : Shape := ArrayShape F16 [1; 1; 2 ^ 31].
Definition wide_out : Shape := ArrayShape F16 [1; 2 ^ 31; 1].
Definition cudnn6 : StatusOr VersionInfo := SOk (mkVersion 6 0 0).

Definition version_error : Status := mkStatus UNKNOWN "cudnn version query failed".

Definition env_no_version : Env := with_dnn_version env1 (SErr version_error).

(** Every candidate asks for 8 GiB of scratch memory, over the budget. *)
Definition over_budget_outcome (alg : AlgorithmDesc) : ConvOutcome :=
  mkConvOutcome [2 ^ 33] true (Some 1).

Definition env_all_fail : Env :=
  env_with (SOk (mkVersion 7 0 0)) [alg1; alg2; alg3] over_budget_outcome
    (fun _ _ => SOk tt) (fun _ _ => SOk true) false.

Definition comparator_unavailable : Status := mkStatus INTERNAL "comparator unavailable".

(** The comparator cannot be built for the first successful candidate. *)
Definition env_create_fails_first (crash_flag : bool) : Env :=
  env_with (SOk (mkVersion 7 0 0)) [alg1; alg2; alg3] outcome_of
    (fun _ a => if Z.eqb (algo_id a) 1 then SErr comparator_unavailable else SOk tt)
    (fun _ _ => SOk true) crash_flag.

(** Forward F32 picking call on [env1]. *)
Definition pick_fwd_f32 : Outcome (Z * bool * Z) * list Event :=
  PickBestAlgorithm env1 kForward in_f32 filt_f32 out_f32 [] dn2d conv_instr [].

(** Forward F16 picking call when the first comparator cannot be built. *)
Definition pick_create_fails (crash_flag : bool) : Outcome (Z * bool * Z) * list Event :=
  PickBestAlgorithm (env_create_fails_first crash_flag) kForward in_f16 filt_f16 out_f16 []
    dn2d conv_instr [].

(** The candidate loop of that call, on the forward result buffer. *)
Definition loop_create_fails : Outcome LoopState * list Event :=
  trial_loop (env_create_fails_first false) dev_alloc true (mkDeviceMemory 4096 96)
    [alg1; alg2; alg3] initial_loop_state [].

(** Forward F16 picking call on [env1]. *)
Definition pick_fwd_f16 : Outcome (Z * bool * Z) * list Event :=
  PickBestAlgorithm env1 kForward in_f16 filt_f16 out_f16 [] dn2d conv_instr [].

End Concrete2.

Module Concrete3.
Import Concrete Concrete2.

(** The candidate query returns no algorithm. *)
Definition env_no_algs : Env :=
  env_with (SOk (mkVersion 7 0 0)) [] outcome_of
    (fun _ _ => SOk tt) (fun _ _ => SOk true) false.

(** Forward F32 picking call with no candidate. *)
Definition pick_no_algs : Outcome (Z * bool * Z) * list Event :=
  PickBestAlgorithm env_no_algs kForward in_f32 filt_f32 out_f32 [] dn2d conv_instr [].

(** A forward convolution whose filter is F16 while its input is F32. *)
Definition comp_mixed : HloComputation :=
  mkComputation [param 1 in_f32; param 2 filt_f16; conv_instr] 3 4.

(** A computation without convolution. *)
Definition comp_params : HloComputation := mkComputation [param 1 in_f32] 1 2.

(** [comp1] as a fusion computation, followed by [comp_params]. *)
Definition module_fusion : HloModule := mkModule [(comp1, true); (comp_params, false)].

Definition module_all_fail : HloModule := mkModule [(comp1, false)].

(** A forward convolution call whose result tuple already carries 250
    scratch bytes, as after a rewrite. *)
Definition conv_scratch : HloInstruction :=
  mkHlo 3 "conv" kCustomCall (TupleShape [out_f32; ArrayShape U8 [250]]) [1; 2]
    kCudnnConvForwardCallTarget [] dn2d None 0 [].

Definition comp_scratch : HloComputation :=
  mkComputation [param 1 in_f32; param 2 filt_f32; conv_scratch] 3 4.

Definition module_scratch : HloModule := mkModule [(comp_scratch, false)].

(** Forward F32 picking call for [conv_scratch] on [env1]. *)
Definition pick_scratch : Outcome (Z * bool * Z) * list Event :=
  PickBestAlgorithm env1 kForward in_f32 filt_f32 out_f32 [] dn2d conv_scratch [].

Definition device_oom : Status := mkStatus RESOURCE_EXHAUSTED "device out of memory".

(** A device allocator refusing requests of 24 bytes, the size of
    [filt_f32]. *)
Definition refusing_alloc : DeviceAllocateFn :=
  fun _ n _ => if Z.eqb n 24 then SErr device_oom else SOk (mkDeviceMemory 4096 n).

Definition env_refuse_filter : Env :=
  mkEnv (Some refusing_alloc) dev_alloc 0 (SOk (mkVersion 7 0 0)) (SOk tt)
    (fun _ _ => Some [alg1]) outcome_of (fun _ _ => SOk tt) (fun _ _ => SOk true) false.

(** Two devices of one platform, the first one locked twice. *)
Definition devices3 : list (Z * Z) := [(7, 0); (7, 1); (7, 0)].

End Concrete3.

(* ================================================================== *)
(** * Theorems *)

Close Scope string_scope.
Open Scope list_scope.
Open Scope Z_scope.
Import Concrete Concrete2 Concrete3.

Example pick_env1 :
  fst (PickBestAlgorithm env1 kForward in_f32 filt_f32 out_f32 [] dn2d conv_instr [])
  = Ok (2, true, 250).
Proof. vm_compute. reflexivity. Qed.

(** C6: the result buffer is chosen by the convolution kind alone: the
    output buffer for a forward convolution, the input buffer for a
    backward-input one, the filter buffer for a backward-filter one. *)
Theorem result_buf_by_kind : forall input_buf filter_buf output_buf,
  result_buf kForward input_buf filter_buf output_buf = output_buf /\
  result_buf kBackwardInput input_buf filter_buf output_buf = input_buf /\
  result_buf kBackwardFilter input_buf filter_buf output_buf = filter_buf.
Proof. repeat split. Qed.

(** C10: [AllocateBytes] is atomic: a returned error leaves the allocator
    (running total and owned buffers) unchanged, a success adds exactly the
    requested bytes to the total and appends exactly one buffer; the only
    other outcome is the [CHECK_GE] abort on a negative size. *)
Theorem AllocateBytes_atomic : forall memory_allocator sa byte_size,
  match Scratch.AllocateBytes memory_allocator sa byte_size with
  | (Scratch.AllocErr _, sa') => sa' = sa
  | (Scratch.AllocOk b, sa') =>
      Scratch.TotalAllocatedBytes sa' = Scratch.TotalAllocatedBytes sa + byte_size /\
      Scratch.allocated_buffers_ sa' = Scratch.allocated_buffers_ sa ++ [b]
  | (Scratch.AllocCrash, sa') => byte_size < 0 /\ sa' = sa
  end.
Proof.
  intros alloc sa n. unfold Scratch.AllocateBytes.
  destruct (Z.ltb n 0) eqn:Hneg; [split; [apply Z.ltb_lt; exact Hneg | reflexivity] |].
  destruct (Z.gtb n Scratch.GetMemoryLimitInBytes); [reflexivity |].
  destruct (alloc (Scratch.device_ordinal_ sa) n false); [split; reflexivity | reflexivity].
Qed.

(** C3 (evaluation at the failing input): with cuDNN 6, a one-dimensional
    F16 convolution with one input channel, 2^31 input positions and 2^31
    output channels has the spec's [total_size] 2^64, far above 2^31, yet
    the code's [int64] computation wraps to 0 and includes Winograd. *)
Theorem winograd_size_wraps :
  ShouldIncludeWinogradNonfusedAlgo cudnn6 wide_in wide_out dn1d = true /\
  winograd_total_size_spec wide_in wide_out dn1d = 2 ^ 64 /\
  threshold <= winograd_total_size_spec wide_in wide_out dn1d.
Proof. vm_compute. split; [reflexivity | split; [reflexivity | discriminate]]. Qed.

(** The version-7 half of the policy: eligibility regardless of shapes. *)
Lemma winograd_cudnn7 : forall v input_shape output_shape dnums,
  7 <= major_version v ->
  ShouldIncludeWinogradNonfusedAlgo (SOk v) input_shape output_shape dnums = true.
Proof.
  intros v i o d H. unfold ShouldIncludeWinogradNonfusedAlgo.
  replace (Z.geb (major_version v) 7) with true by (symmetry; apply Z.geb_le; lia).
  reflexivity.
Qed.

(** A failed version query decides Winograd eligibility like a library older
    than version 7. *)
Lemma winograd_version_error : forall s v input_shape output_shape dnums,
  major_version v < 7 ->
  ShouldIncludeWinogradNonfusedAlgo (SErr s) input_shape output_shape dnums =
  ShouldIncludeWinogradNonfusedAlgo (SOk v) input_shape output_shape dnums.
Proof.
  intros s v i o d H. unfold ShouldIncludeWinogradNonfusedAlgo.
  replace (Z.geb (major_version v) 7) with false by (symmetry; rewrite Z.geb_leb; apply Z.leb_gt; lia).
  reflexivity.
Qed.

(** C9 (counterexample): with the version query failing, the picking call
    still runs every candidate and returns a pick. *)
Lemma version_error_not_fatal :
  PickBestAlgorithm env_no_version kForward in_f32 filt_f32 out_f32 [] dn2d conv_instr []
  = (Ok (2, true, 250),
     snd (PickBestAlgorithm env1 kForward in_f32 filt_f32 out_f32 [] dn2d conv_instr [])).
Proof. vm_compute. reflexivity. Qed.

(** C9 (amended): a failed library version query is not fatal: the whole
    picking call behaves exactly as with a library older than version 7
    (Winograd eligibility falls back to the size check) and proceeds. *)
Theorem version_error_as_pre7 : forall env s v kind input_shape filter_shape
    output_shape window dnums instr log,
  major_version v < 7 ->
  PickBestAlgorithm (with_dnn_version env (SErr s)) kind input_shape filter_shape
    output_shape window dnums instr log =
  PickBestAlgorithm (with_dnn_version env (SOk v)) kind input_shape filter_shape
    output_shape window dnums instr log.
Proof.
  intros env s v kind i f o w d instr log H.
  unfold PickBestAlgorithm, with_dnn_version; cbn [env_dnn_version].
  rewrite (winograd_version_error s v i o d H). reflexivity.
Qed.

Example limit_message_5e9 :
  Scratch.limit_message 5000000000 =
  "Allocating 5000000000 bytes exceeds the memory limit of 4294967296 bytes."%string.
Proof. vm_compute. reflexivity. Qed.

(** C2 (counterexample): two requests of 4 GiB on one allocator both
    succeed; the allocator's running total reaches 8 GiB, twice the budget. *)
Lemma scratch_total_exceeds_budget :
  match Scratch.AllocateBytes dev_alloc (Scratch.create 0) (2 ^ 32) with
  | (Scratch.AllocOk _, sa1) =>
      match Scratch.AllocateBytes dev_alloc sa1 (2 ^ 32) with
      | (Scratch.AllocOk _, sa2) =>
          Scratch.TotalAllocatedBytes sa2 = 2 ^ 33 /\
          Scratch.GetMemoryLimitInBytes < Scratch.TotalAllocatedBytes sa2
      | _ => False
      end
  | _ => False
  end.
Proof. vm_compute. split; reflexivity. Qed.

(** C2 (amended): the 4 GiB budget bounds each single request, not the
    running total.  A request above 2^32 bytes fails with RESOURCE_EXHAUSTED,
    its message carrying both sizes, and leaves the allocator unchanged; a
    request within the budget is decided by the device allocator alone,
    whatever has been allocated before.  A failing scratch request inside a
    trial fails only that trial (the loop state is unchanged); a failing
    request for the shared operand buffers is the error of the whole
    [PickBestAlgorithm] call. *)
Theorem scratch_budget_per_request :
  (forall memory_allocator sa byte_size,
     Scratch.GetMemoryLimitInBytes < byte_size ->
     Scratch.AllocateBytes memory_allocator sa byte_size =
     (Scratch.AllocErr (mkStatus RESOURCE_EXHAUSTED (Scratch.limit_message byte_size)), sa)) /\
  (forall memory_allocator sa byte_size,
     0 <= byte_size <= Scratch.GetMemoryLimitInBytes ->
     fst (Scratch.AllocateBytes memory_allocator sa byte_size) =
     match memory_allocator (Scratch.device_ordinal_ sa) byte_size false with
     | SOk b => Scratch.AllocOk b
     | SErr s => Scratch.AllocErr s
     end) /\
  (forall env allocator cross_check_enabled rbuf alg st log s sa,
     Scratch.AllocateAll allocator (Scratch.create (env_device_ordinal env))
       (co_scratch_requests (env_run env alg)) = (Scratch.AllocErr s, sa) ->
     trial env allocator cross_check_enabled rbuf alg st log =
     (Ok st, log ++ [EvTrial alg false default_profile (Scratch.TotalAllocatedBytes sa)])) /\
  (forall env kind input_shape filter_shape output_shape window dnums instr,
     same_element_type input_shape filter_shape = true ->
     same_element_type input_shape output_shape = true ->
     Scratch.GetMemoryLimitInBytes < ByteSizeOf input_shape ->
     fst (PickBestAlgorithm env kind input_shape filter_shape output_shape window dnums
            instr []) =
     Err (mkStatus RESOURCE_EXHAUSTED (Scratch.limit_message (ByteSizeOf input_shape)))) /\
  (forall env kind input_shape filter_shape output_shape window dnums instr s,
     same_element_type input_shape filter_shape = true ->
     same_element_type input_shape output_shape = true ->
     (fst (Scratch.AllocateBytes (picker_allocator env) (Scratch.create (env_device_ordinal env))
             (ByteSizeOf input_shape)) = Scratch.AllocErr s \/
      exists b1 sa1,
        Scratch.AllocateBytes (picker_allocator env) (Scratch.create (env_device_ordinal env))
          (ByteSizeOf input_shape) = (Scratch.AllocOk b1, sa1) /\
        (fst (Scratch.AllocateBytes (picker_allocator env) sa1 (ByteSizeOf filter_shape))
         = Scratch.AllocErr s \/
         exists b2 sa2,
           Scratch.AllocateBytes (picker_allocator env) sa1 (ByteSizeOf filter_shape)
           = (Scratch.AllocOk b2, sa2) /\
           fst (Scratch.AllocateBytes (picker_allocator env) sa2 (ByteSizeOf output_shape))
           = Scratch.AllocErr s)) ->
     fst (PickBestAlgorithm env kind input_shape filter_shape output_shape window dnums
            instr []) = Err s).
Proof.
  split; [| split; [| split; [| split]]].
  - intros alloc sa n H. unfold Scratch.AllocateBytes.
    replace (Z.ltb n 0) with false
      by (symmetry; apply Z.ltb_ge; unfold Scratch.GetMemoryLimitInBytes in H; simpl in H; lia).
    replace (Z.gtb n Scratch.GetMemoryLimitInBytes) with true
      by (symmetry; rewrite Z.gtb_ltb; apply Z.ltb_lt; exact H).
    reflexivity.
  - intros alloc sa n [H0 H1]. unfold Scratch.AllocateBytes.
    replace (Z.ltb n 0) with false by (symmetry; apply Z.ltb_ge; exact H0).
    replace (Z.gtb n Scratch.GetMemoryLimitInBytes) with false
      by (symmetry; rewrite Z.gtb_ltb; apply Z.ltb_ge; exact H1).
    destruct (alloc (Scratch.device_ordinal_ sa) n false); reflexivity.
  - intros env alloc cc rbuf alg st log s sa H.
    unfold trial, RunCudnnConvolution. rewrite H. reflexivity.
  - intros env kind i f o w d instr Hf Ho H.
    unfold PickBestAlgorithm, bind, check. rewrite Hf, Ho. cbv [ret].
    unfold alloc_or_return at 1.
    replace (Scratch.AllocateBytes _ (Scratch.create _) (ByteSizeOf i)) with
      (Scratch.AllocErr (mkStatus RESOURCE_EXHAUSTED (Scratch.limit_message (ByteSizeOf i))),
       Scratch.create (env_device_ordinal env)).
    + reflexivity.
    + unfold Scratch.AllocateBytes.
      replace (Z.ltb (ByteSizeOf i) 0) with false
        by (symmetry; apply Z.ltb_ge; unfold Scratch.GetMemoryLimitInBytes in H; simpl in H; lia).
      replace (Z.gtb (ByteSizeOf i) Scratch.GetMemoryLimitInBytes) with true
        by (symmetry; rewrite Z.gtb_ltb; apply Z.ltb_lt; exact H).
      reflexivity.
  - intros env kind i f o w d instr s Hf Ho H.
    unfold PickBestAlgorithm, bind, check. rewrite Hf, Ho. cbv [ret]. cbv zeta.
    unfold alloc_or_return.
    destruct H as [H | [b1 [sa1 [E1 H]]]].
    + destruct (Scratch.AllocateBytes (picker_allocator env)
                  (Scratch.create (env_device_ordinal env)) (ByteSizeOf i)) as [r1 sa1].
      cbn [fst] in H. subst r1. reflexivity.
    + rewrite E1. cbv [emit ret bind]. destruct H as [H | [b2 [sa2 [E2 H]]]].
      * destruct (Scratch.AllocateBytes (picker_allocator env) sa1 (ByteSizeOf f)) as [r2 sa2].
        cbn [fst] in H. subst r2. reflexivity.
      * rewrite E2. cbv [emit ret bind].
        destruct (Scratch.AllocateBytes (picker_allocator env) sa2 (ByteSizeOf o)) as [r3 sa3].
        cbn [fst] in H. subst r3. reflexivity.
Qed.

(* ------------------------------------------------------------------ *)
(** ** Reasoning about the monad *)

Lemma bind_inv : forall A B (m : M A) (k : A -> M B) log r log',
  bind m k log = (r, log') ->
  (exists a log1, m log = (Ok a, log1) /\ k a log1 = (r, log')) \/
  (exists s, m log = (Err s, log') /\ r = Err s) \/
  (m log = (Crash, log') /\ r = Crash).
Proof.
  intros A B m k log r log' H. unfold bind in H.
  destruct (m log) as [[a | s |] log1].
  - left. exists a, log1. split; [reflexivity | exact H].
  - right; left. inversion H; subst. exists s. split; reflexivity.
  - right; right. inversion H; subst. split; reflexivity.
Qed.

Ltac bind_case H :=
  apply bind_inv in H;
  let a := fresh "a" in let l := fresh "log" in let Hm := fresh "Hm" in
  let s := fresh "s" in let Hr := fresh "Hr" in
  destruct H as [[a [l [Hm H]]] | [[s [Hm Hr]] | [Hm Hr]]].

(** Closes [log' = log ++ ?ext] goals. *)
Ltac log_ext :=
  first [ rewrite <- ?app_assoc; reflexivity | symmetry; apply app_nil_r ].

Ltac bind_case_as H a l Hm s Hr :=
  apply bind_inv in H; destruct H as [[a [l [Hm H]]] | [[s [Hm Hr]] | [Hm Hr]]].

Lemma check_inv : forall b log r log',
  check b log = (r, log') ->
  log' = log /\ ((b = true /\ r = Ok tt) \/ (b = false /\ r = Crash)).
Proof.
  intros [] log r log' H; cbv in H; inversion H; subst; auto.
Qed.

Lemma emit_inv : forall ev log r log',
  emit ev log = (r, log') -> r = Ok tt /\ log' = log ++ [ev].
Proof. intros ev log r log' H. cbv [emit] in H. inversion H. auto. Qed.

Lemma trials_of_app : forall l1 l2, trials_of (l1 ++ l2) = trials_of l1 ++ trials_of l2.
Proof.
  induction l1 as [| ev l1 IH]; intros l2; [reflexivity |].
  destruct ev; simpl; rewrite ?IH; reflexivity.
Qed.

Lemma valid_trials_app : forall l1 l2,
  valid_trials (l1 ++ l2) = valid_trials l1 ++ valid_trials l2.
Proof.
  induction l1 as [| ev l1 IH]; intros l2; [reflexivity |].
  destruct ev; simpl; rewrite ?IH; try reflexivity.
  destruct (launch_ok && is_valid profile); reflexivity.
Qed.

Lemma valid_trials_of_no_trials : forall l, trials_of l = [] -> valid_trials l = [].
Proof.
  induction l as [| ev l IH]; intros H; [reflexivity |].
  destruct ev; simpl in *; try (apply IH; exact H). discriminate.
Qed.

Ltac finish_cc :=
  split; [reflexivity |];
  split; [intros ? ?; discriminate |];
  intros ? Heq; inversion Heq; subst; simpl; split; reflexivity.

(** The cross-check block logs no trial and leaves the running best alone;
    it never returns an error status. *)
Lemma cross_check_step_inv : forall env cc rbuf alg st log r log',
  cross_check_step env cc rbuf alg st log = (r, log') ->
  exists ext, log' = log ++ ext /\ trials_of ext = [] /\
    (forall s, r <> Err s) /\
    (forall st', r = Ok st' -> best_result st' = best_result st /\
                              best_result_bytes_used st' = best_result_bytes_used st).
Proof.
  intros env cc rbuf alg st log r log' H. unfold cross_check_step in H.
  destruct (comparator st) as [c |].
  - destruct (env_compare_equal env (cmp_reference c) alg) as [[|] | e];
      cbv [bind emit check ret crash] in H;
      repeat match goal with
             | H : context [if ?b then _ else _] |- _ => destruct b
             end;
      inversion H; subst;
      eexists; (split; [log_ext |]);
      finish_cc.
  - destruct cc.
    + destruct (env_comparator_create env rbuf alg) as [u | e];
        cbv [bind emit check ret crash] in H;
        repeat match goal with
               | H : context [if ?b then _ else _] |- _ => destruct b
               end;
        inversion H; subst;
        eexists; (split; [log_ext |]);
        finish_cc.
    + cbv [ret] in H. inversion H; subst. exists []. rewrite app_nil_r.
      split; [reflexivity |]; finish_cc.
Qed.

Lemma emit_not_err : forall ev log s log', emit ev log = (Err s, log') -> False.
Proof. intros ev log s log' H. cbv in H. discriminate. Qed.

Lemma emit_not_crash : forall ev log log', emit ev log = (Crash, log') -> False.
Proof. intros ev log log' H. cbv in H. discriminate. Qed.

(** One trial extends the log, never returns an error status, and moves
    the running best by [best_step] over the valid trial it logs. *)
Lemma trial_inv : forall env alloc cc rbuf alg st log r log',
  trial env alloc cc rbuf alg st log = (r, log') ->
  exists ext, log' = log ++ ext /\ (forall s, r <> Err s) /\
    (forall st', r = Ok st' ->
       (best_result st', best_result_bytes_used st') =
       fold_left best_step (valid_trials ext) (best_result st, best_result_bytes_used st)).
Proof.
  intros env alloc cc rbuf alg st log r log' H. unfold trial in H.
  destruct (RunCudnnConvolution env alloc alg (Scratch.create (env_device_ordinal env)))
    as [| ok p sa] eqn:Hrun.
  - cbv [crash] in H. inversion H; subst. exists [].
    split; [symmetry; apply app_nil_r |]. split; intros; discriminate.
  - bind_case H; [| exfalso; eapply emit_not_err; exact Hm
                  | exfalso; eapply emit_not_crash; exact Hm].
    apply emit_inv in Hm. destruct Hm as [_ Hlog]. subst log0.
    destruct (ok && is_valid p) eqn:Hv.
    + bind_case H.
      * apply cross_check_step_inv in Hm.
        destruct Hm as [ext2 [Hlog2 [Ht [_ Hbest]]]].
        destruct (Hbest a0 eq_refl) as [Hb1 Hb2]. subst log0.
        exists ([EvTrial alg ok p (Scratch.TotalAllocatedBytes sa)] ++ ext2).
        rewrite Hb1 in H.
        destruct (Z.ltb (elapsed_time_in_ms p) (elapsed_time_in_ms (best_result st))) eqn:Hlt;
          cbv [ret] in H; inversion H; subst; clear H;
          (split; [rewrite app_assoc; reflexivity |]);
          (split; [intros ? ?; discriminate |]);
          intros st' Heq; inversion Heq; subst;
          rewrite valid_trials_app, (valid_trials_of_no_trials _ Ht), app_nil_r;
          simpl; rewrite Hv; simpl; unfold best_step; simpl; rewrite Hlt;
          simpl; rewrite ?Hb1, ?Hb2; reflexivity.
      * apply cross_check_step_inv in Hm.
        destruct Hm as [ext2 [_ [_ [Hne _]]]]. exfalso. exact (Hne s eq_refl).
      * apply cross_check_step_inv in Hm.
        destruct Hm as [ext2 [Hlog2 [Ht _]]]. subst.
        exists ([EvTrial alg ok p (Scratch.TotalAllocatedBytes sa)] ++ ext2).
        split; [rewrite app_assoc; reflexivity |].
        split; intros; discriminate.
    + cbv [ret] in H. inversion H; subst.
      exists [EvTrial alg ok p (Scratch.TotalAllocatedBytes sa)].
      split; [reflexivity |]. split; [intros; discriminate |].
      intros st' Heq. inversion Heq; subst. simpl. rewrite Hv. reflexivity.
Qed.

(** The whole candidate loop: the running best is the [best_step] fold of
    the valid trials it logs. *)
Lemma trial_loop_inv : forall env alloc cc rbuf algs st log r log',
  trial_loop env alloc cc rbuf algs st log = (r, log') ->
  exists ext, log' = log ++ ext /\ (forall s, r <> Err s) /\
    (forall st', r = Ok st' ->
       (best_result st', best_result_bytes_used st') =
       fold_left best_step (valid_trials ext) (best_result st, best_result_bytes_used st)).
Proof.
  intros env alloc cc rbuf algs. induction algs as [| alg rest IH];
    intros st log r log' H.
  - cbv [trial_loop ret] in H. inversion H; subst. exists [].
    split; [symmetry; apply app_nil_r |]. split; [intros; discriminate |].
    intros st' Heq. inversion Heq; subst. reflexivity.
  - cbn [trial_loop] in H. bind_case H.
    + apply trial_inv in Hm. destruct Hm as [ext1 [Hl1 [_ Hb1]]].
      apply IH in H. destruct H as [ext2 [Hl2 [Hne Hb2]]].
      exists (ext1 ++ ext2). split; [subst; symmetry; apply app_assoc |]. split; [exact Hne |].
      intros st' Heq. rewrite (Hb2 st' Heq), valid_trials_app, fold_left_app.
      rewrite <- (Hb1 a eq_refl). reflexivity.
    + apply trial_inv in Hm. destruct Hm as [ext1 [_ [Hne _]]].
      exfalso. exact (Hne s eq_refl).
    + apply trial_inv in Hm. destruct Hm as [ext1 [Hl1 _]].
      exists ext1. subst. split; [reflexivity |]. split; intros; discriminate.
Qed.

Lemma alloc_or_return_inv : forall alloc sa n log r log',
  alloc_or_return alloc sa n log = (r, log') ->
  (exists b sa', r = Ok (b, sa') /\ log' = log ++ [EvOperandAllocated b]) \/
  (log' = log /\ forall x, r <> Ok x).
Proof.
  intros alloc sa n log r log' H. unfold alloc_or_return in H.
  destruct (Scratch.AllocateBytes alloc sa n) as [[| s | b] sa'];
    cbv [bind emit ret crash fail] in H; inversion H; subst.
  - right. split; [reflexivity | intros; discriminate].
  - right. split; [reflexivity | intros; discriminate].
  - left. exists b, sa'. split; reflexivity.
Qed.

Lemma initialize_f16_inv : forall b log r log',
  initialize_f16 b log = (r, log') ->
  (r = Ok tt /\ log' = log ++ f16_events b /\ f16_ok b) \/ (r = Crash /\ log' = log).
Proof.
  intros b log r log' H. unfold initialize_f16 in H.
  cbv [bind check ret crash emit] in H.
  destruct (Z.eqb (dm_opaque b mod 4) 0) eqn:E1;
    [destruct (Z.eqb (dm_size b mod 4 mod 2) 0) eqn:E2 |];
    inversion H; subst.
  - left. split; [reflexivity |]. split; [rewrite <- app_assoc; reflexivity |].
    split; apply Z.eqb_eq; assumption.
  - right. split; reflexivity.
  - right. split; reflexivity.
Qed.

Lemma initialize_buffers_inv : forall cc i f o log r log',
  initialize_buffers cc i f o log = (r, log') ->
  (r = Ok tt /\ log' = log ++ init_events cc i f o /\
     (cc = true -> f16_ok i /\ f16_ok f /\ f16_ok o)) \/
  (r = Crash /\ exists ext, log' = log ++ ext /\ trials_of ext = []).
Proof.
  intros cc i f o log r log' H. unfold initialize_buffers, init_events in *.
  destruct cc.
  - bind_case H; [| destruct (initialize_f16_inv _ _ _ _ Hm) as [[? _] | [? _]]; discriminate |].
    2: { destruct (initialize_f16_inv _ _ _ _ Hm) as [[? _] | [_ ?]]; [discriminate |].
         right. subst. split; [reflexivity |]. exists []. split; [symmetry; apply app_nil_r | reflexivity]. }
    destruct (initialize_f16_inv _ _ _ _ Hm) as [[_ [Hl1 Hi]] | [? _]]; [| discriminate].
    clear Hm.
    bind_case H; [| destruct (initialize_f16_inv _ _ _ _ Hm) as [[? _] | [? _]]; discriminate |].
    2: { destruct (initialize_f16_inv _ _ _ _ Hm) as [[? _] | [_ ?]]; [discriminate |].
         right. subst. split; [reflexivity |]. exists (f16_events i).
         split; [reflexivity | reflexivity]. }
    destruct (initialize_f16_inv _ _ _ _ Hm) as [[_ [Hl2 Hf]] | [? _]]; [| discriminate].
    clear Hm.
    destruct (initialize_f16_inv _ _ _ _ H) as [[Hr [Hl3 Ho]] | [Hr Hl3]].
    + left. subst. split; [reflexivity |]. split; [rewrite <- !app_assoc; reflexivity |].
      intros _. split; [exact Hi | split; [exact Hf | exact Ho]].
    + right. subst. split; [reflexivity |]. exists (f16_events i ++ f16_events f).
      split; [rewrite <- !app_assoc; reflexivity | reflexivity].
  - cbv [bind emit] in H. inversion H; subst. left. split; [reflexivity |].
    split; [rewrite <- !app_assoc; reflexivity | intros; discriminate].
Qed.

Lemma trials_of_init_events : forall cc i f o, trials_of (init_events cc i f o) = [].
Proof. intros [] i f o; reflexivity. Qed.

Lemma trials_of_prologue : forall cc i f o, trials_of (prologue_log cc i f o) = [].
Proof.
  intros cc i f o. unfold prologue_log. rewrite !trials_of_app, trials_of_init_events.
  reflexivity.
Qed.

Ltac setup_failed :=
  left; split;
  [ subst; rewrite ?trials_of_app, ?trials_of_init_events; cbn [trials_of app];
    rewrite ?trials_of_app, ?trials_of_init_events;
    repeat match goal with Ht : trials_of _ = [] |- _ => rewrite Ht end;
    reflexivity
  | intros ? ?; subst; discriminate ].

(** A picking call either stops before its first trial (with an error or an
    abort) or runs the prologue (three operand allocations, the buffer
    initialization, [BlockHostUntilDone]) and then the candidate loop, whose
    outcome decides the result. *)
Lemma pick_structure : forall env kind input_shape filter_shape output_shape window
    dnums instr r log,
  PickBestAlgorithm env kind input_shape filter_shape output_shape window dnums instr []
  = (r, log) ->
  (trials_of log = [] /\ forall x, r <> Ok x) \/
  exists ib fb ob algs lr,
    (is_F16 input_shape = true -> f16_ok ib /\ f16_ok fb /\ f16_ok ob) /\
    env_get_algorithms env kind
      (ShouldIncludeWinogradNonfusedAlgo (env_dnn_version env) input_shape output_shape dnums)
      = Some algs /\
    trial_loop env (picker_allocator env) (is_F16 input_shape)
      (result_buf kind ib fb ob) algs initial_loop_state
      (prologue_log (is_F16 input_shape) ib fb ob) = (lr, log) /\
    r = pick_epilogue instr lr.
Proof.
  intros env kind i f o w d instr r log H. unfold PickBestAlgorithm in H.
  (* the two CHECK_EQs *)
  bind_case H;
    [| apply check_inv in Hm; destruct Hm as [_ [[_ ?] | [_ ?]]]; discriminate
     | apply check_inv in Hm; destruct Hm as [? _]; setup_failed ].
  apply check_inv in Hm. destruct Hm as [? _]. subst.
  bind_case H;
    [| apply check_inv in Hm; destruct Hm as [_ [[_ ?] | [_ ?]]]; discriminate
     | apply check_inv in Hm; destruct Hm as [? _]; setup_failed ].
  apply check_inv in Hm. destruct Hm as [? _]. subst.
  cbv beta zeta in H.
  (* the three operand allocations *)
  bind_case H;
    [| apply alloc_or_return_inv in Hm;
       destruct Hm as [[? [? [? _]]] | [? _]]; [discriminate | setup_failed]
     | apply alloc_or_return_inv in Hm;
       destruct Hm as [[? [? [? _]]] | [? _]]; [discriminate | setup_failed] ].
  apply alloc_or_return_inv in Hm.
  destruct Hm as [[ib [sa1 [Ha Hl]]] | [_ Hne]]; [| exfalso; exact (Hne _ eq_refl)].
  injection Ha as Ha; subst. cbv beta iota in H.
  bind_case H;
    [| apply alloc_or_return_inv in Hm;
       destruct Hm as [[? [? [? _]]] | [? _]]; [discriminate | setup_failed]
     | apply alloc_or_return_inv in Hm;
       destruct Hm as [[? [? [? _]]] | [? _]]; [discriminate | setup_failed] ].
  apply alloc_or_return_inv in Hm.
  destruct Hm as [[fb [sa2 [Ha Hl]]] | [_ Hne]]; [| exfalso; exact (Hne _ eq_refl)].
  injection Ha as Ha; subst. cbv beta iota in H.
  bind_case H;
    [| apply alloc_or_return_inv in Hm;
       destruct Hm as [[? [? [? _]]] | [? _]]; [discriminate | setup_failed]
     | apply alloc_or_return_inv in Hm;
       destruct Hm as [[? [? [? _]]] | [? _]]; [discriminate | setup_failed] ].
  apply alloc_or_return_inv in Hm.
  destruct Hm as [[ob [sa3 [Ha Hl]]] | [_ Hne]]; [| exfalso; exact (Hne _ eq_refl)].
  injection Ha as Ha; subst. cbv beta iota in H.
  (* buffer initialization *)
  bind_case H;
    [| apply initialize_buffers_inv in Hm;
       destruct Hm as [[? _] | [? _]]; discriminate
     | apply initialize_buffers_inv in Hm;
       destruct Hm as [[? _] | [_ [ext [? Ht]]]]; [discriminate | setup_failed] ].
  apply initialize_buffers_inv in Hm.
  destruct Hm as [[_ [Hl Hf16]] | [? _]]; [| discriminate].
  subst.
  (* BlockHostUntilDone *)
  bind_case H;
    [| exfalso; eapply emit_not_err; exact Hm | exfalso; eapply emit_not_crash; exact Hm].
  apply emit_inv in Hm. destruct Hm as [_ Hl]. subst.
  destruct (env_block_host_until_done env) as [u | s] eqn:Eb.
  2: { bind_case H; cbv [fail] in Hm; inversion Hm; subst; setup_failed. }
  bind_case H; cbv [ret] in Hm; inversion Hm; subst; clear Hm.
  (* the candidate list *)
  destruct (env_get_algorithms env kind
              (ShouldIncludeWinogradNonfusedAlgo (env_dnn_version env) i o d))
    as [algs |] eqn:Ea.
  2: { bind_case H; cbv [crash] in Hm; inversion Hm; subst; setup_failed. }
  bind_case H; cbv [ret] in Hm; inversion Hm; subst; clear Hm.
  (* the loop *)
  right. exists ib, fb, ob. eexists.
  bind_case_as H st logl Hm s Hr.
  - exists (Ok st).
    destruct (is_valid (best_result st)) eqn:Hv; cbv [ret fail] in H; inversion H; subst;
      (split; [exact Hf16 |]); (split; [first [exact Ea | reflexivity] |]); (split; [exact Hm |]);
      simpl; rewrite Hv; reflexivity.
  - exists (Err s). subst.
    split; [exact Hf16 |]. split; [first [exact Ea | reflexivity] |]. split; [exact Hm | reflexivity].
  - exists Crash. subst.
    split; [exact Hf16 |]. split; [first [exact Ea | reflexivity] |]. split; [exact Hm | reflexivity].
Qed.

Lemma valid_trials_valid : forall l p b, In (p, b) (valid_trials l) -> is_valid p = true.
Proof.
  induction l as [| ev l IH]; intros p b H; [destruct H |].
  destruct ev; simpl in H; try (eapply IH; exact H).
  destruct (launch_ok && is_valid profile) eqn:E; [| eapply IH; exact H].
  destruct H as [Heq | H]; [| eapply IH; exact H].
  inversion Heq; subst. apply andb_true_iff in E. destruct E as [_ E]. exact E.
Qed.

Lemma is_valid_elapsed : forall p, is_valid p = true -> elapsed_time_in_ms p < kMaxElapsedMs.
Proof.
  intros p H. unfold is_valid in H. destruct (pr_algorithm p); [| discriminate].
  apply Z.ltb_lt. exact H.
Qed.

Lemma nth_error_cons_inv : forall A (x : A) l j y,
  nth_error (x :: l) j = Some y -> (j = O /\ y = x) \/ (exists j', j = S j' /\ nth_error l j' = Some y).
Proof.
  intros A x l [| j'] y H; simpl in H.
  - left. inversion H. split; reflexivity.
  - right. exists j'. split; [reflexivity | exact H].
Qed.

(** The running best over a list of trials started from [acc]: either no
    trial is strictly faster than [acc], or it is the first of the fastest
    trials. *)
Lemma fold_best_step_first_min : forall l acc,
  (fold_left best_step l acc = acc /\
     forall x, In x l -> elapsed_time_in_ms (fst acc) <= elapsed_time_in_ms (fst x)) \/
  (exists i, nth_error l i = Some (fold_left best_step l acc) /\
     elapsed_time_in_ms (fst (fold_left best_step l acc)) < elapsed_time_in_ms (fst acc) /\
     (forall j x, nth_error l j = Some x ->
        elapsed_time_in_ms (fst (fold_left best_step l acc)) <= elapsed_time_in_ms (fst x)) /\
     (forall j x, (j < i)%nat -> nth_error l j = Some x ->
        elapsed_time_in_ms (fst (fold_left best_step l acc)) < elapsed_time_in_ms (fst x))).
Proof.
  induction l as [| x l IH]; intros acc.
  - left. split; [reflexivity | intros x []].
  - cbn [fold_left].
    destruct (Z.ltb (elapsed_time_in_ms (fst x)) (elapsed_time_in_ms (fst acc))) eqn:E.
    + replace (best_step acc x) with x by (unfold best_step; rewrite E; reflexivity).
      apply Z.ltb_lt in E. right.
      destruct (IH x) as [[Hr Hall] | [i [Hi [Hlt [Hmin Hfirst]]]]].
      * rewrite Hr. exists O. split; [reflexivity |]. split; [exact E |].
        split.
        -- intros j y Hj. apply nth_error_cons_inv in Hj.
           destruct Hj as [[_ ->] | [j' [_ Hj']]]; [lia |].
           apply Hall. eapply nth_error_In. exact Hj'.
        -- intros j y Hj. lia.
      * exists (S i). split; [exact Hi |]. split; [lia |]. split.
        -- intros j y Hj. apply nth_error_cons_inv in Hj.
           destruct Hj as [[_ ->] | [j' [_ Hj']]]; [lia |]. exact (Hmin j' y Hj').
        -- intros j y Hji Hj. apply nth_error_cons_inv in Hj.
           destruct Hj as [[_ ->] | [j' [-> Hj']]]; [lia |].
           apply (Hfirst j' y); [lia | exact Hj'].
    + replace (best_step acc x) with acc by (unfold best_step; rewrite E; reflexivity).
      apply Z.ltb_ge in E.
      destruct (IH acc) as [[Hr Hall] | [i [Hi [Hlt [Hmin Hfirst]]]]].
      * left. split; [exact Hr |]. intros y [<- | Hy]; [exact E | exact (Hall y Hy)].
      * right. exists (S i). split; [exact Hi |]. split; [exact Hlt |]. split.
        -- intros j y Hj. apply nth_error_cons_inv in Hj.
           destruct Hj as [[_ ->] | [j' [_ Hj']]]; [lia |]. exact (Hmin j' y Hj').
        -- intros j y Hji Hj. apply nth_error_cons_inv in Hj.
           destruct Hj as [[_ ->] | [j' [-> Hj']]]; [lia |].
           apply (Hfirst j' y); [lia | exact Hj'].
Qed.

(** C1: whenever a picking call runs to completion (it is not aborted) and
    at least one trial launched with a valid profile, it returns the
    algorithm id, tensor-op flag and scratch bytes of the first of the
    fastest valid trials: no valid trial is faster, and every earlier valid
    trial is strictly slower (exact ties keep the earlier candidate). *)
Theorem pick_best_is_first_fastest : forall env kind input_shape filter_shape
    output_shape window dnums instr r log,
  PickBestAlgorithm env kind input_shape filter_shape output_shape window dnums instr []
  = (r, log) ->
  r <> Crash ->
  valid_trials log <> [] ->
  exists i p b,
    nth_error (valid_trials log) i = Some (p, b) /\
    r = Ok (algo_id (algorithm p), tensor_ops_enabled (algorithm p), b) /\
    (forall j p' b', nth_error (valid_trials log) j = Some (p', b') ->
       elapsed_time_in_ms p <= elapsed_time_in_ms p') /\
    (forall j p' b', (j < i)%nat -> nth_error (valid_trials log) j = Some (p', b') ->
       elapsed_time_in_ms p < elapsed_time_in_ms p').
Proof.
  intros env kind is fs os w d instr r log H Hnc Hv.
  apply pick_structure in H.
  destruct H as [[Ht _] | [ib [fb [ob [algs [lr [_ [_ [Hloop Hr]]]]]]]]].
  { exfalso. apply Hv. apply valid_trials_of_no_trials. exact Ht. }
  apply trial_loop_inv in Hloop. destruct Hloop as [ext [Hlog [Hne Hbest]]].
  assert (Hvt : valid_trials log = valid_trials ext).
  { subst log. rewrite valid_trials_app, valid_trials_of_no_trials;
      [reflexivity | apply trials_of_prologue]. }
  rewrite Hvt in *.
  destruct lr as [st | s |]; [| exfalso; exact (Hne s eq_refl) | subst; exfalso; apply Hnc; reflexivity].
  specialize (Hbest st eq_refl). cbn [initial_loop_state best_result best_result_bytes_used] in Hbest.
  destruct (fold_best_step_first_min (valid_trials ext) (default_profile, 0))
    as [[_ Hall] | [i [Hi [_ [Hmin Hfirst]]]]].
  - exfalso. destruct (valid_trials ext) as [| [p b] l] eqn:E; [apply Hv; reflexivity |].
    specialize (Hall (p, b) (or_introl eq_refl)).
    assert (Hp : is_valid p = true) by (apply (valid_trials_valid ext p b); rewrite E; left; reflexivity).
    apply is_valid_elapsed in Hp. simpl in Hall. lia.
  - rewrite <- Hbest in Hi, Hmin, Hfirst.
    exists i, (best_result st), (best_result_bytes_used st).
    split; [exact Hi |]. split.
    + assert (Hval : is_valid (best_result st) = true).
      { apply (valid_trials_valid ext _ (best_result_bytes_used st)).
        eapply nth_error_In. exact Hi. }
      subst r. unfold pick_epilogue. rewrite Hval. reflexivity.
    + split.
      * intros j p' b' Hj. exact (Hmin j (p', b') Hj).
      * intros j p' b' Hji Hj. exact (Hfirst j (p', b') Hji Hj).
Qed.

(** Witness for C1: the forward F32 call on [env1]. *)
Lemma pick_best_is_first_fastest_witness :
  exists i p b,
    nth_error (valid_trials (snd pick_fwd_f32)) i = Some (p, b) /\
    fst pick_fwd_f32 = Ok (algo_id (algorithm p), tensor_ops_enabled (algorithm p), b).
Proof.
  destruct (pick_best_is_first_fastest env1 kForward in_f32 filt_f32 out_f32 [] dn2d
              conv_instr (fst pick_fwd_f32) (snd pick_fwd_f32))
    as [i [p [b [H1 [H2 _]]]]].
  - vm_compute. reflexivity.
  - vm_compute. discriminate.
  - vm_compute. discriminate.
  - exists i, p, b. split; [exact H1 | exact H2].
Defined.

(** C4: when at least one candidate was tried, none produced a valid
    profile and the call was not aborted, [PickBestAlgorithm] fails with
    the internal error naming the convolution; [RunOnInstruction] then
    reports [changed = false], logs that message and returns the
    computation unchanged. *)
Theorem all_failed_leaves_instruction : forall env c instr_id instr lhs rhs m r log,
  lookup_instr c instr_id = Some instr ->
  IsCustomCallToDnnConvolution instr = true ->
  operand_shape c instr 0 = Some lhs ->
  operand_shape c instr 1 = Some rhs ->
  PickForInstruction env instr lhs rhs = Some m ->
  m [] = (r, log) ->
  r <> Crash ->
  trials_of log <> [] ->
  valid_trials log = [] ->
  r = Err (InternalError (all_failed_message instr)) /\
  RunOnInstruction env c instr_id
  = (Ok false, c, log ++ [EvLogError (all_failed_message instr)]).
Proof.
  intros env c id instr lhs rhs m r log Hl Hc H0 H1 Hp Hm Hnc Ht Hv.
  assert (Hr : r = Err (InternalError (all_failed_message instr))).
  { unfold PickForInstruction in Hp.
    assert (Hgen : forall kind is fs os,
              PickBestAlgorithm env kind is fs os (hi_window instr) (hi_dnums instr) instr [] = (r, log) ->
              r = Err (InternalError (all_failed_message instr))).
    { intros kind is fs os H.
      apply pick_structure in H.
      destruct H as [[Ht' _] | [ib [fb [ob [algs [lr [_ [_ [Hloop Hr]]]]]]]]].
      { exfalso. exact (Ht Ht'). }
      apply trial_loop_inv in Hloop. destruct Hloop as [ext [Hlog [Hne Hbest]]].
      assert (Hvt : valid_trials log = valid_trials ext).
      { subst log. rewrite valid_trials_app, valid_trials_of_no_trials;
          [reflexivity | apply trials_of_prologue]. }
      rewrite Hvt in Hv.
      destruct lr as [st | s |]; [| exfalso; exact (Hne s eq_refl) | subst; exfalso; apply Hnc; reflexivity].
      specialize (Hbest st eq_refl). rewrite Hv in Hbest. simpl in Hbest.
      injection Hbest as Hb _. subst r. unfold pick_epilogue. rewrite Hb. reflexivity. }
    destruct (String.eqb _ kCudnnConvForwardCallTarget);
      [injection Hp as <-; exact (Hgen _ _ _ _ Hm) |].
    destruct (String.eqb _ kCudnnConvBackwardInputCallTarget);
      [injection Hp as <-; exact (Hgen _ _ _ _ Hm) |].
    destruct (String.eqb _ kCudnnConvBackwardFilterCallTarget);
      [injection Hp as <-; exact (Hgen _ _ _ _ Hm) | discriminate]. }
  split; [exact Hr |].
  unfold RunOnInstruction. rewrite Hl, Hc. cbn [negb]. rewrite H0, H1. cbv zeta.
  rewrite Hp, Hm, Hr. reflexivity.
Qed.

(** Witness for C4: every candidate of [env_all_fail] asks for more
    scratch memory than the budget allows. *)
Lemma all_failed_leaves_instruction_witness :
  RunOnInstruction env_all_fail comp1 3
  = (Ok false, comp1,
     snd (PickBestAlgorithm env_all_fail kForward in_f32 filt_f32 out_f32 [] dn2d conv_instr [])
     ++ [EvLogError (all_failed_message conv_instr)]).
Proof.
  destruct (all_failed_leaves_instruction env_all_fail comp1 3 conv_instr in_f32 filt_f32
    (PickBestAlgorithm env_all_fail kForward in_f32 filt_f32 out_f32 [] dn2d conv_instr)
    (fst (PickBestAlgorithm env_all_fail kForward in_f32 filt_f32 out_f32 [] dn2d conv_instr []))
    (snd (PickBestAlgorithm env_all_fail kForward in_f32 filt_f32 out_f32 [] dn2d conv_instr [])))
    as [_ H].
  - vm_compute. reflexivity.
  - vm_compute. reflexivity.
  - vm_compute. reflexivity.
  - vm_compute. reflexivity.
  - vm_compute. reflexivity.
  - vm_compute. reflexivity.
  - vm_compute. discriminate.
  - vm_compute. discriminate.
  - vm_compute. reflexivity.
  - exact H.
Defined.

(** *** Buffer initialization, byte by byte *)

Lemma apply_events_app : forall m l1 l2,
  apply_events m (l1 ++ l2) = apply_events (apply_events m l1) l2.
Proof. intros m l1 l2. unfold apply_events. apply fold_left_app. Qed.

Lemma in_range_spec : forall base size a,
  in_range base size a = true <-> base <= a /\ a < base + size.
Proof.
  intros base size a. unfold in_range.
  rewrite andb_true_iff, Z.leb_le, Z.ltb_lt. reflexivity.
Qed.

Lemma half_pattern_byte_shift : forall x y q, x = y + 2 * q ->
  half_pattern_byte x = half_pattern_byte y.
Proof. intros x y q ->. unfold half_pattern_byte. rewrite Z.even_add_mul_2. reflexivity. Qed.

Lemma halfs_bits_byte : forall k, 0 <= k < 4 -> byte_of halfs_bits k = half_pattern_byte k.
Proof.
  intros k Hk. assert (k = 0 \/ k = 1 \/ k = 2 \/ k = 3) as [-> | [-> | [-> | ->]]] by lia;
    reflexivity.
Qed.

Lemma halfs_bytes_nth : forall k, 0 <= k < 4 ->
  nth (Z.to_nat k) halfs_bytes 0 = half_pattern_byte k.
Proof.
  intros k Hk. assert (k = 0 \/ k = 1 \/ k = 2 \/ k = 3) as [-> | [-> | [-> | ->]]] by lia;
    reflexivity.
Qed.

(** The two operations [initialize_f16] queues write the half pattern,
    by address parity, over the aligned part and over the leftover bytes. *)
Lemma f16_events_effect : forall b m a, f16_ok b ->
  apply_events m (f16_events b) a =
  if in_range (dm_opaque b + dm_size b / 4 * 4) (dm_size b mod 4) a then half_pattern_byte a
  else if in_range (dm_opaque b) (dm_size b / 4 * 4) a then half_pattern_byte a
  else m a.
Proof.
  intros b m a [Hal _]. unfold apply_events, f16_events. cbn [fold_left apply_event dm_opaque].
  destruct (in_range (dm_opaque b + dm_size b / 4 * 4) (dm_size b mod 4) a) eqn:E1.
  - apply in_range_spec in E1.
    pose proof (Z.mod_pos_bound (dm_size b) 4 ltac:(lia)).
    rewrite halfs_bytes_nth by lia.
    apply (half_pattern_byte_shift _ _ (- (2 * (dm_opaque b / 4) + 2 * (dm_size b / 4)))).
    pose proof (Z.div_mod (dm_opaque b) 4 ltac:(lia)). lia.
  - destruct (in_range (dm_opaque b) (dm_size b / 4 * 4) a) eqn:E2; [| reflexivity].
    rewrite halfs_bits_byte by (apply Z.mod_pos_bound; lia).
    apply (half_pattern_byte_shift _ _ (- (2 * (dm_opaque b / 4) + 2 * ((a - dm_opaque b) / 4)))).
    pose proof (Z.div_mod (dm_opaque b) 4 ltac:(lia)).
    pose proof (Z.div_mod (a - dm_opaque b) 4 ltac:(lia)). lia.
Qed.

Lemma f16_events_fill : forall b m a, f16_ok b ->
  in_range (dm_opaque b) (dm_size b) a = true ->
  apply_events m (f16_events b) a = half_pattern_byte a.
Proof.
  intros b m a Hok Hin. rewrite (f16_events_effect b m a Hok).
  destruct (in_range (dm_opaque b + dm_size b / 4 * 4) (dm_size b mod 4) a) eqn:E1;
    [reflexivity |].
  destruct (in_range (dm_opaque b) (dm_size b / 4 * 4) a) eqn:E2; [reflexivity |].
  exfalso. apply in_range_spec in Hin.
  assert (N1 : ~ (dm_opaque b + dm_size b / 4 * 4 <= a /\
                  a < dm_opaque b + dm_size b / 4 * 4 + dm_size b mod 4))
    by (rewrite <- in_range_spec; congruence).
  assert (N2 : ~ (dm_opaque b <= a /\ a < dm_opaque b + dm_size b / 4 * 4))
    by (rewrite <- in_range_spec; congruence).
  pose proof (Z.div_mod (dm_size b) 4 ltac:(lia)). lia.
Qed.

Lemma f16_events_preserve : forall b m a, f16_ok b ->
  m a = half_pattern_byte a -> apply_events m (f16_events b) a = half_pattern_byte a.
Proof.
  intros b m a Hok Hm. rewrite (f16_events_effect b m a Hok).
  destruct (in_range _ _ a); [reflexivity |]. destruct (in_range _ _ a); [reflexivity | exact Hm].
Qed.

Lemma half_pattern_byte_nonzero : forall k, half_pattern_byte k <> 0.
Proof. intros k. unfold half_pattern_byte. destruct (Z.even k); discriminate. Qed.

(** C8: a picking call that reaches its trials has first allocated the
    three operand buffers and initialized them, then blocked until the
    initialization completed; only after that block does any trial run.
    At that point every byte of every operand buffer holds the non-zero
    [Eigen::half] pattern (0x66, 0x2E repeated) when the input element type
    is F16, and zero otherwise, whatever the memory held before. *)
Theorem buffers_initialized_before_trials : forall env kind input_shape filter_shape
    output_shape window dnums instr r log,
  PickBestAlgorithm env kind input_shape filter_shape output_shape window dnums instr []
  = (r, log) ->
  trials_of log <> [] ->
  exists pre post,
    log = pre ++ EvBlockHostUntilDone :: post /\
    trials_of pre = [] /\
    (forall buf, In (EvOperandAllocated buf) pre ->
     forall (m0 : Memory) a, in_range (dm_opaque buf) (dm_size buf) a = true ->
       apply_events m0 pre a =
       if is_F16 input_shape then half_pattern_byte (a - dm_opaque buf) else 0) /\
    (forall k, half_pattern_byte k <> 0).
Proof.
  intros env kind is fs os w d instr r log H Ht.
  apply pick_structure in H.
  destruct H as [[Ht' _] | [ib [fb [ob [algs [lr [Hok [_ [Hloop _]]]]]]]]].
  { exfalso. exact (Ht Ht'). }
  apply trial_loop_inv in Hloop. destruct Hloop as [ext [Hlog _]].
  exists ([EvOperandAllocated ib; EvOperandAllocated fb; EvOperandAllocated ob]
          ++ init_events (is_F16 is) ib fb ob), ext.
  split.
  { rewrite Hlog. unfold prologue_log. rewrite <- !app_assoc. reflexivity. }
  split.
  { rewrite trials_of_app, trials_of_init_events. reflexivity. }
  split; [| exact half_pattern_byte_nonzero].
  intros buf Hbuf m0 a Hin.
  change (apply_events m0 (init_events (is_F16 is) ib fb ob) a =
          (if is_F16 is then half_pattern_byte (a - dm_opaque buf) else 0)).
  assert (Hbuf' : buf = ib \/ buf = fb \/ buf = ob).
  { destruct (is_F16 is); simpl in Hbuf;
      repeat (destruct Hbuf as [Hbuf | Hbuf]; [try discriminate; injection Hbuf as ->; tauto |]);
      destruct Hbuf. }
  destruct (is_F16 is).
  - destruct (Hok eq_refl) as [Hi [Hf Ho]].
    assert (Hbase : f16_ok buf) by (destruct Hbuf' as [-> | [-> | ->]]; assumption).
    rewrite (half_pattern_byte_shift (a - dm_opaque buf) a (- (2 * (dm_opaque buf / 4))))
      by (pose proof (Z.div_mod (dm_opaque buf) 4 ltac:(lia)); destruct Hbase; lia).
    unfold init_events. rewrite !apply_events_app.
    destruct Hbuf' as [-> | [-> | ->]].
    + apply f16_events_preserve; [exact Ho |]. apply f16_events_preserve; [exact Hf |].
      apply f16_events_fill; assumption.
    + apply f16_events_preserve; [exact Ho |]. apply f16_events_fill; assumption.
    + apply f16_events_fill; assumption.
  - unfold init_events, apply_events. cbn [fold_left apply_event].
    destruct Hbuf' as [-> | [-> | ->]]; rewrite ?Hin;
      repeat match goal with |- context [if ?c then _ else _] => destruct c end; reflexivity.
Qed.

(** Witness for C8: the forward F16 call on [env1], whose 64-byte input
    buffer lies at address 4096. *)
Lemma buffers_initialized_before_trials_witness :
  exists pre post,
    snd pick_fwd_f16 = pre ++ EvBlockHostUntilDone :: post /\
    (In (EvOperandAllocated (mkDeviceMemory 4096 64)) pre ->
     apply_events (fun _ => 0) pre 4097 = 46).
Proof.
  destruct (buffers_initialized_before_trials env1 kForward in_f16 filt_f16 out_f16 [] dn2d
              conv_instr (fst pick_fwd_f16) (snd pick_fwd_f16))
    as [pre [post [Hlog [_ [Hmem _]]]]].
  - vm_compute. reflexivity.
  - vm_compute. discriminate.
  - exists pre, post. split; [exact Hlog |].
    intros Hin. rewrite (Hmem _ Hin (fun _ => 0) 4097 eq_refl). reflexivity.
Defined.

(** *** The cross-check block over the candidate loop *)

Lemma successful_algs_app : forall l1 l2,
  successful_algs (l1 ++ l2) = successful_algs l1 ++ successful_algs l2.
Proof.
  induction l1 as [| ev l1 IH]; intros l2; [reflexivity |].
  destruct ev; simpl; rewrite ?IH; try reflexivity.
  destruct (launch_ok && is_valid profile); reflexivity.
Qed.

Lemma comparisons_of_app : forall l1 l2,
  comparisons_of (l1 ++ l2) = comparisons_of l1 ++ comparisons_of l2.
Proof.
  induction l1 as [| ev l1 IH]; intros l2; [reflexivity |].
  destruct ev; simpl; rewrite ?IH; reflexivity.
Qed.

Lemma comparators_created_app : forall l1 l2,
  comparators_created (l1 ++ l2) = comparators_created l1 ++ comparators_created l2.
Proof.
  induction l1 as [| ev l1 IH]; intros l2; [reflexivity |].
  destruct ev; simpl; rewrite ?IH; reflexivity.
Qed.

Lemma error_count_app : forall l1 l2,
  error_count (l1 ++ l2) = (error_count l1 + error_count l2)%nat.
Proof.
  induction l1 as [| ev l1 IH]; intros l2; [reflexivity |].
  destruct ev; simpl; rewrite ?IH; reflexivity.
Qed.

(** Splits a trial (or a cross-check block) into its cases: the run's
    outcome, the comparator's state and answers, and the tests. *)
Ltac trial_split H :=
  unfold trial, cross_check_step, crash_on_checking_failure in H;
  cbv [bind emit ret check crash] in H;
  repeat (match type of H with
          | context [RunCudnnConvolution ?e ?a ?g ?s] =>
              let E := fresh "Erun" in
              destruct (RunCudnnConvolution e a g s) as [| ?ok ?p ?sa] eqn:E
          | context [comparator ?st] =>
              let E := fresh "Ecomp" in destruct (comparator st) eqn:E
          | context [env_compare_equal ?e ?x ?y] =>
              let E := fresh "Ecmp" in destruct (env_compare_equal e x y) as [[|] | ?] eqn:E
          | context [env_comparator_create ?e ?x ?y] =>
              let E := fresh "Ecr" in destruct (env_comparator_create e x y) eqn:E
          | context [if ?b then _ else _] =>
              let E := fresh "Eb" in destruct b eqn:E
          end; cbv [bind emit ret check crash] in H).

Ltac fatal_finish :=
  match goal with H : (_, _) = (_, _) |- _ => inversion H; subst; clear H end;
  eexists; split; [log_ext |];
  split; intros Hf; [intros Hne | intros Hcr];
  cbn [error_count app] in *;
  try reflexivity; try congruence;
  rewrite Hf in *; cbn in *; discriminate.

(** A diagnostic in a trial aborts it when the flag is set; with the flag
    unset, only a crashing run aborts it. *)
Lemma trial_fatal : forall env alloc cc rbuf alg st log r log',
  trial env alloc cc rbuf alg st log = (r, log') ->
  exists ev, log' = log ++ ev /\
    (env_crash_on_verification_failures env = true -> error_count ev <> O -> r = Crash) /\
    (env_crash_on_verification_failures env = false -> r = Crash ->
       RunCudnnConvolution env alloc alg (Scratch.create (env_device_ordinal env)) = RunCrash).
Proof.
  intros env alloc cc rbuf alg st log r log' H.
  trial_split H; fatal_finish.
Qed.

Ltac phase_finish :=
  match goal with H : (_, _) = (_, _) |- _ => inversion H; subst; clear H end;
  repeat match goal with
         | E1 : comparator ?st = Some _, E2 : comparator ?st = Some _ |- _ =>
             rewrite E1 in E2; injection E2 as E2; subst
         | E1 : comparator ?st = Some _, E2 : comparator ?st = None |- _ =>
             rewrite E1 in E2; discriminate E2
         | E : Some _ = Some _ |- _ => injection E as E; subst
         | E : Some _ = None |- _ => discriminate E
         | E : None = Some _ |- _ => discriminate E
         end;
  (eexists; split; [log_ext |]);
  cbn [set_best comparator first_algorithm successful_algs comparisons_of
       comparators_created error_count app map filter length comparison_failed snd
       cmp_reference] in *;
  do 2 (repeat match goal with
                | E : ?b = _ |- context [if ?b then _ else _] => rewrite E
                | E : env_compare_equal ?e ?x ?y = _ |- context [env_compare_equal ?e ?x ?y] =>
                    rewrite E
                end;
         cbn [map filter length comparison_failed snd]).

(** A trial once the reference exists: it compares a successful candidate
    against the reference and logs a diagnostic for a failed comparison. *)
Lemma trial_after_reference : forall env alloc cc rbuf alg st c log st' log',
  comparator st = Some c ->
  trial env alloc cc rbuf alg st log = (Ok st', log') ->
  exists ev, log' = log ++ ev /\
    comparator st' = Some c /\ first_algorithm st' = first_algorithm st /\
    comparators_created ev = [] /\
    comparisons_of ev =
      map (fun b => (cmp_reference c, b, env_compare_equal env (cmp_reference c) b))
          (successful_algs ev) /\
    error_count ev = List.length (filter comparison_failed (comparisons_of ev)).
Proof.
  intros env alloc cc rbuf alg st c log st' log' Hc H.
  trial_split H; phase_finish; repeat split; try first [reflexivity | assumption].
Qed.

(** A trial before any reference exists: a successful candidate becomes the
    reference when its comparator can be built in cross-check mode; a
    failed construction is logged and leaves no reference. *)
Lemma trial_before_reference : forall env alloc cc rbuf alg st log st' log',
  comparator st = None ->
  trial env alloc cc rbuf alg st log = (Ok st', log') ->
  exists ev, log' = log ++ ev /\ comparisons_of ev = [] /\
    ((successful_algs ev = [] /\ comparator st' = None /\
      first_algorithm st' = first_algorithm st /\
      comparators_created ev = [] /\ error_count ev = O) \/
     (successful_algs ev = [alg] /\
      if cc && creatable env rbuf alg then
        comparator st' = Some (mkComparator rbuf alg) /\ first_algorithm st' = Some alg /\
        comparators_created ev = [(alg, rbuf)] /\ error_count ev = O
      else
        comparator st' = None /\ first_algorithm st' = first_algorithm st /\
        comparators_created ev = [] /\ error_count ev = (if cc then 1 else 0)%nat)).
Proof.
  intros env alloc cc rbuf alg st log st' log' Hc H.
  trial_split H; phase_finish;
    (split; [reflexivity |]);
    first
      [ solve [left; repeat split; first [reflexivity | assumption]]
      | solve [right; unfold creatable;
               repeat match goal with
                      | E : env_comparator_create ?e ?x ?y = _
                        |- context [env_comparator_create ?e ?x ?y] => rewrite E
                      end;
               cbn; repeat split; first [reflexivity | assumption]] ].
Qed.

Lemma loop_after_reference : forall env alloc cc rbuf algs st c log st' log',
  comparator st = Some c ->
  trial_loop env alloc cc rbuf algs st log = (Ok st', log') ->
  exists ext, log' = log ++ ext /\
    comparator st' = Some c /\ first_algorithm st' = first_algorithm st /\
    comparators_created ext = [] /\
    comparisons_of ext =
      map (fun b => (cmp_reference c, b, env_compare_equal env (cmp_reference c) b))
          (successful_algs ext) /\
    error_count ext = List.length (filter comparison_failed (comparisons_of ext)).
Proof.
  intros env alloc cc rbuf algs. induction algs as [| alg rest IH];
    intros st c log st' log' Hc H.
  - cbv [trial_loop ret] in H. inversion H; subst. exists [].
    rewrite app_nil_r. repeat split; assumption || reflexivity.
  - cbn [trial_loop] in H. bind_case_as H st1 log1 Hm s Hr; [| discriminate Hr | discriminate Hr].
    destruct (trial_after_reference _ _ _ _ _ _ _ _ _ _ Hc Hm)
      as [ev [Hl1 [Hc1 [Hf1 [Hcr1 [Hcmp1 Herr1]]]]]].
    destruct (IH st1 c log1 st' log' Hc1 H) as [ext [Hl2 [Hc2 [Hf2 [Hcr2 [Hcmp2 Herr2]]]]]].
    exists (ev ++ ext). subst log1 log'.
    split; [rewrite app_assoc; reflexivity |].
    split; [exact Hc2 |]. split; [congruence |].
    split; [rewrite comparators_created_app, Hcr1, Hcr2; reflexivity |].
    split.
    + rewrite comparisons_of_app, successful_algs_app, map_app, Hcmp1, Hcmp2. reflexivity.
    + rewrite error_count_app, comparisons_of_app, filter_app, length_app, Herr1, Herr2.
      reflexivity.
Qed.

Lemma loop_before_reference : forall env alloc cc rbuf algs st log st' log',
  comparator st = None ->
  trial_loop env alloc cc rbuf algs st log = (Ok st', log') ->
  exists ext, log' = log ++ ext /\
    match reference_split env cc rbuf (successful_algs ext) with
    | (failed, None) =>
        comparator st' = None /\ first_algorithm st' = first_algorithm st /\
        comparators_created ext = [] /\ comparisons_of ext = [] /\
        error_count ext = List.length failed
    | (failed, Some (ref, later)) =>
        comparator st' = Some (mkComparator rbuf ref) /\ first_algorithm st' = Some ref /\
        comparators_created ext = [(ref, rbuf)] /\
        comparisons_of ext = map (fun b => (ref, b, env_compare_equal env ref b)) later /\
        error_count ext =
          (List.length failed + List.length (filter comparison_failed (comparisons_of ext)))%nat
    end.
Proof.
  intros env alloc cc rbuf algs. induction algs as [| alg rest IH];
    intros st log st' log' Hc H.
  - cbv [trial_loop ret] in H. inversion H; subst. exists [].
    rewrite app_nil_r. unfold reference_split. destruct cc; cbn;
      repeat split; assumption || reflexivity.
  - cbn [trial_loop] in H. bind_case_as H st1 log1 Hm s Hr; [| discriminate Hr | discriminate Hr].
    destruct (trial_before_reference _ _ _ _ _ _ _ _ _ Hc Hm)
      as [ev [Hl1 [Hcmp1 [[Hs1 [Hc1 [Hf1 [Hcr1 Herr1]]]] | [Hs1 Hcase]]]]].
    + destruct (IH st1 log1 st' log' Hc1 H) as [ext [Hl2 Hext]].
      exists (ev ++ ext). subst log1 log'.
      split; [rewrite app_assoc; reflexivity |].
      rewrite successful_algs_app, Hs1. cbn [app].
      rewrite comparators_created_app, comparisons_of_app, error_count_app, Hcr1, Hcmp1, Herr1.
      cbn [app Nat.add].
      destruct (reference_split env cc rbuf (successful_algs ext)) as [failed [[ref later] |]];
        destruct Hext as [Hc2 [Hf2 Hrest]]; (split; [exact Hc2 |]); (split; [congruence |]);
        exact Hrest.
    + destruct (cc && creatable env rbuf alg) eqn:Ecr.
      * destruct Hcase as [Hc1 [Hf1 [Hcr1 Herr1]]].
        destruct (loop_after_reference _ _ _ _ _ _ _ _ _ _ Hc1 H)
          as [ext [Hl2 [Hc2 [Hf2 [Hcr2 [Hcmp2 Herr2]]]]]].
        exists (ev ++ ext). subst log1 log'.
        split; [rewrite app_assoc; reflexivity |].
        apply andb_true_iff in Ecr. destruct Ecr as [-> Ecr].
        rewrite successful_algs_app, Hs1. cbn [app reference_split split_reference].
        rewrite Ecr. cbn [List.length Nat.add].
        split; [exact Hc2 |]. split; [congruence |].
        split; [rewrite comparators_created_app, Hcr1, Hcr2; reflexivity |].
        split.
        -- rewrite comparisons_of_app, Hcmp1, Hcmp2. reflexivity.
        -- rewrite error_count_app, comparisons_of_app, Hcmp1, Herr1, Herr2. reflexivity.
      * destruct Hcase as [Hc1 [Hf1 [Hcr1 Herr1]]].
        destruct (IH st1 log1 st' log' Hc1 H) as [ext [Hl2 Hext]].
        exists (ev ++ ext). subst log1 log'.
        split; [rewrite app_assoc; reflexivity |].
        rewrite successful_algs_app, Hs1. cbn [app].
        rewrite comparators_created_app, comparisons_of_app, error_count_app, Hcr1, Hcmp1, Herr1.
        cbn [app].
        destruct cc.
        -- cbn [andb] in Ecr. unfold reference_split in Hext |- *.
           cbn [split_reference]. rewrite Ecr.
           destruct (split_reference env rbuf (successful_algs ext)) as [failed [[ref later] |]];
             destruct Hext as [Hc2 [Hf2 [Hcr2 [Hcmp2 Herr2]]]];
             (split; [exact Hc2 |]); (split; [congruence |]);
             (split; [exact Hcr2 |]); (split; [exact Hcmp2 |]);
             rewrite Herr2; reflexivity.
        -- unfold reference_split in Hext |- *.
           destruct Hext as [Hc2 [Hf2 [Hcr2 [Hcmp2 Herr2]]]].
           split; [exact Hc2 |]. split; [congruence |].
           split; [exact Hcr2 |]. split; [exact Hcmp2 |].
           rewrite Herr2. reflexivity.
Qed.

Lemma loop_fatal : forall env alloc cc rbuf algs st log r log',
  trial_loop env alloc cc rbuf algs st log = (r, log') ->
  exists ext, log' = log ++ ext /\
    (env_crash_on_verification_failures env = true -> error_count ext <> O -> r = Crash) /\
    (env_crash_on_verification_failures env = false -> r = Crash ->
       exists alg, In alg algs /\
         RunCudnnConvolution env alloc alg (Scratch.create (env_device_ordinal env)) = RunCrash).
Proof.
  intros env alloc cc rbuf algs. induction algs as [| alg rest IH];
    intros st log r log' H.
  - cbv [trial_loop ret] in H. inversion H; subst. exists [].
    split; [symmetry; apply app_nil_r |].
    split; [intros _ Hne; exfalso; apply Hne; reflexivity | intros _ Hcr; discriminate].
  - cbn [trial_loop] in H. bind_case_as H st1 log1 Hm s Hr.
    + destruct (trial_fatal _ _ _ _ _ _ _ _ _ Hm) as [ev [Hl1 [Ht1 Hf1]]].
      destruct (IH st1 log1 r log' H) as [ext [Hl2 [Ht2 Hf2]]].
      exists (ev ++ ext). subst log1 log'.
      split; [rewrite app_assoc; reflexivity |]. split.
      * intros Hflag Hne. rewrite error_count_app in Hne.
        destruct (error_count ev) eqn:E1.
        -- apply Ht2; assumption.
        -- exfalso. assert (Hc : Ok st1 = Crash) by (apply Ht1; [exact Hflag | discriminate]).
           discriminate Hc.
      * intros Hflag Hcr. destruct (Hf2 Hflag Hcr) as [a [Ha Hrun]].
        exists a. split; [right; exact Ha | exact Hrun].
    + exfalso. apply trial_inv in Hm. destruct Hm as [ext [_ [Hne _]]]. exact (Hne s eq_refl).
    + subst r. destruct (trial_fatal _ _ _ _ _ _ _ _ _ Hm) as [ev [Hl1 [_ Hf1]]].
      exists ev. split; [exact Hl1 |]. split; [intros; reflexivity |].
      intros Hflag _. exists alg. split; [left; reflexivity | exact (Hf1 Hflag eq_refl)].
Qed.

(** C5 (counterexample): in cross-check mode the first successful candidate
    need not become the reference.  When the comparator cannot be built
    after [alg1] (the first successful candidate), the error is logged,
    tuning continues, and [alg2], the next successful candidate, becomes
    the reference that [alg3] is compared against. *)
Lemma reference_skips_failed_comparator :
  hd_error (successful_algs (snd (pick_create_fails false))) = Some alg1 /\
  comparators_created (snd (pick_create_fails false)) = [(alg2, mkDeviceMemory 4096 96)] /\
  comparisons_of (snd (pick_create_fails false)) = [(alg2, alg3, SOk true)] /\
  error_count (snd (pick_create_fails false)) = 1%nat /\
  fst (pick_create_fails false) = Ok (2, true, 250).
Proof. vm_compute. repeat split. Qed.

(** C5 (amended): the cross-check block over the candidate loop, started
    with no reference as [PickBestAlgorithm] starts it.  If the loop runs to
    completion, the reference is the first successful candidate whose
    comparator can be built in cross-check mode (none when cross-checking
    is off); every successful candidate before it had a failed construction,
    each logged as one error-level diagnostic; it is set once, on the
    result buffer, and every later successful candidate is compared
    against it, each failed or mismatching comparison logged as one more
    diagnostic.  Timing plays no part in any of this.  A diagnostic aborts
    the call when the crash-on-verification-failure flag is set; when it is
    unset, only a crashing run aborts the loop. *)
Theorem cross_check_reference : forall env alloc cc rbuf algs log r log',
  trial_loop env alloc cc rbuf algs initial_loop_state log = (r, log') ->
  exists ext, log' = log ++ ext /\
    (forall st', r = Ok st' ->
       match reference_split env cc rbuf (successful_algs ext) with
       | (failed, None) =>
           comparator st' = None /\ first_algorithm st' = None /\
           comparators_created ext = [] /\ comparisons_of ext = [] /\
           error_count ext = List.length failed
       | (failed, Some (ref, later)) =>
           comparator st' = Some (mkComparator rbuf ref) /\ first_algorithm st' = Some ref /\
           comparators_created ext = [(ref, rbuf)] /\
           comparisons_of ext = map (fun b => (ref, b, env_compare_equal env ref b)) later /\
           error_count ext =
             (List.length failed + List.length (filter comparison_failed (comparisons_of ext)))%nat
       end) /\
    (env_crash_on_verification_failures env = true -> error_count ext <> O -> r = Crash) /\
    (env_crash_on_verification_failures env = false -> r = Crash ->
       exists alg, In alg algs /\
         RunCudnnConvolution env alloc alg (Scratch.create (env_device_ordinal env)) = RunCrash).
Proof.
  intros env alloc cc rbuf algs log r log' H.
  destruct (loop_fatal _ _ _ _ _ _ _ _ _ H) as [ext [Hl [Ht Hf]]].
  exists ext. split; [exact Hl |]. split; [| split; assumption].
  intros st' Hr. subst r.
  destruct (loop_before_reference _ _ _ _ _ initial_loop_state _ _ _ eq_refl H) as [ext2 [Hl2 Hm]].
  rewrite Hl in Hl2. apply app_inv_head in Hl2. subst ext2.
  exact Hm.
Qed.

(** Witness for C5 (amended): the loop of the counterexample. *)
Lemma cross_check_reference_witness :
  exists ext, snd loop_create_fails = [] ++ ext /\
    comparators_created ext = [(alg2, mkDeviceMemory 4096 96)].
Proof.
  destruct (cross_check_reference (env_create_fails_first false) dev_alloc true
              (mkDeviceMemory 4096 96) [alg1; alg2; alg3] [] (fst loop_create_fails)
              (snd loop_create_fails))
    as [ext [Hl [Hok _]]].
  - vm_compute. reflexivity.
  - exists ext. split; [exact Hl |].
    assert (He : ext = snd loop_create_fails) by (rewrite Hl; reflexivity).
    specialize (Hok (match fst loop_create_fails with Ok st => st | _ => initial_loop_state end)
                  ltac:(vm_compute; reflexivity)).
    rewrite He in Hok |- *. vm_compute in Hok. destruct Hok as [_ [_ [Hcr _]]]. exact Hcr.
Defined.

(** *** The rewrite of a convolution *)

Lemma ReplaceUsesAndRemove_In : forall c old new x,
  In x (hc_instructions (ReplaceUsesAndRemove c old new)) <->
  exists y, In y (hc_instructions c) /\ hi_id y <> old /\ x = replace_uses old new y.
Proof.
  intros c old new x. unfold ReplaceUsesAndRemove. cbn [hc_instructions].
  rewrite in_map_iff. split.
  - intros [y [<- Hy]]. apply filter_In in Hy. destruct Hy as [Hy Hne].
    exists y. split; [exact Hy |]. split; [| reflexivity].
    intros Heq. rewrite Heq, Z.eqb_refl in Hne. discriminate.
  - intros [y [Hy [Hne ->]]]. exists y. split; [reflexivity |].
    apply filter_In. split; [exact Hy |]. apply Z.eqb_neq in Hne. rewrite Hne. reflexivity.
Qed.

Lemma PrimitiveType_eqb_refl : forall t, PrimitiveType_eqb t t = true.
Proof. intros []; reflexivity. Qed.

Lemma dims_eqb_refl : forall d, dims_eqb d d = true.
Proof. induction d as [| x d IH]; [reflexivity |]. cbn. rewrite Z.eqb_refl. exact IH. Qed.

Lemma Compatible_refl : forall s, Compatible s s = true.
Proof.
  fix IH 1. intros [t d | l].
  - cbn. rewrite PrimitiveType_eqb_refl, dims_eqb_refl. reflexivity.
  - cbn. revert l. fix IHl 1. intros [| x l]; [reflexivity |].
    rewrite (IH x), (IHl l). reflexivity.
Qed.

Lemma replace_operand_ne : forall old new op, new <> old -> replace_operand old new op <> old.
Proof.
  intros old new op Hne. unfold replace_operand.
  destruct (Z.eqb op old) eqn:E; [exact Hne |]. apply Z.eqb_neq. exact E.
Qed.

Lemma replace_operand_other : forall old new op, op <> old -> replace_operand old new op = op.
Proof.
  intros old new op Hne. unfold replace_operand. apply Z.eqb_neq in Hne. rewrite Hne. reflexivity.
Qed.

Lemma lookup_instr_In : forall c id i,
  lookup_instr c id = Some i -> In i (hc_instructions c) /\ hi_id i = id.
Proof.
  intros c id i H. unfold lookup_instr in H.
  split; [eapply find_some; exact H |].
  apply find_some in H. destruct H as [_ H]. apply Z.eqb_eq. exact H.
Qed.

(** C7: when the pick for a convolution custom call succeeds with
    algorithm [a], tensor-op flag [tc] and [sb] scratch bytes,
    [RunOnInstruction] reports [changed = true] and the new computation
    holds a custom call with the same target, window and dimension numbers,
    the backend config [(a, tc)] and the shape [(r0, u8[sb])]; a
    get-tuple-element takes its result [r0] and a tuple of it and an empty
    [u8[0]] constant, with the original's shape [(r0, u8[0])], replaces the
    original: the root and every other instruction's uses now refer to the
    tuple, and neither the original nor any use of it remains.  The
    original's shape is the [(result, u8[0])] of a convolution custom call,
    and the instruction ids are below [hc_next_id]. *)
Theorem rewrite_on_success : forall env c instr_id instr lhs rhs m a tc sb log r0,
  lookup_instr c instr_id = Some instr ->
  IsCustomCallToDnnConvolution instr = true ->
  operand_shape c instr 0 = Some lhs ->
  operand_shape c instr 1 = Some rhs ->
  PickForInstruction env instr lhs rhs = Some m ->
  m [] = (Ok (a, tc, sb), log) ->
  hi_shape instr = MakeTupleShape [r0; MakeShape U8 [0]] ->
  (forall i, In i (hc_instructions c) -> hi_id i < hc_next_id c) ->
  exists c' call gte tup,
    RunOnInstruction env c instr_id = (Ok true, c', log) /\
    In call (hc_instructions c') /\ In gte (hc_instructions c') /\ In tup (hc_instructions c') /\
    hi_opcode call = kCustomCall /\
    hi_custom_call_target call = hi_custom_call_target instr /\
    hi_backend_config call = Some (mkBackendConfig a tc) /\
    hi_shape call = MakeTupleShape [r0; MakeShape U8 [sb]] /\
    hi_window call = hi_window instr /\ hi_dnums call = hi_dnums instr /\
    hi_opcode gte = kGetTupleElement /\ hi_operands gte = [hi_id call] /\
    hi_tuple_index gte = 0 /\ hi_shape gte = r0 /\
    hi_opcode tup = kTuple /\ hd_error (hi_operands tup) = Some (hi_id gte) /\
    hi_shape tup = hi_shape instr /\
    hc_root c' = replace_operand instr_id (hi_id tup) (hc_root c) /\
    (forall i, In i (hc_instructions c) -> hi_id i <> instr_id ->
       In (replace_uses instr_id (hi_id tup) i) (hc_instructions c')) /\
    (forall i, In i (hc_instructions c') -> hi_id i <> instr_id /\ ~ In instr_id (hi_operands i)).
Proof.
  intros env c id instr lhs rhs m a tc sb log r0 Hl Hc H0 H1 Hp Hm Hshape Hwf.
  destruct (lookup_instr_In _ _ _ Hl) as [Hin Hid].
  assert (Hlt : id < hc_next_id c) by (rewrite <- Hid; apply Hwf; exact Hin).
  unfold RunOnInstruction. rewrite Hl, Hc. cbn [negb]. rewrite H0, H1. cbv zeta.
  rewrite Hp, Hm. unfold set_backend_config, AddInstruction, ReplaceInstruction.
  cbn [hc_next_id hc_instructions hc_root].
  assert (Hcomp : Compatible (hi_shape instr)
            (MakeTupleShape [tuple_shapes (hi_shape instr) 0; MakeShape U8 [0]]) = true)
    by (rewrite Hshape; apply Compatible_refl).
  cbn [hi_shape with_id CreateTuple CreateGetTupleElement CreateEmptyU8Constant MakeTupleShape
       MakeShape tuple_shapes nth].
  rewrite Hcomp. cbn [hi_id with_id]. rewrite Hid.
  set (N := hc_next_id c) in *.
  match goal with
  | |- context [ReplaceUsesAndRemove
                  (mkComputation ((((_ ++ [?x1]) ++ [?x2]) ++ [?x3]) ++ [?x4]) _ _) _ _] =>
      set (w1 := x1); set (w2 := x2); set (w3 := x3); set (w4 := x4)
  end.
  set (T := N + 1 + 1 + 1).
  assert (HT : T <> id) by (unfold T; lia).
  assert (Hi1 : hi_id w1 = N) by reflexivity.
  assert (Hi2 : hi_id w2 = N + 1) by reflexivity.
  assert (Hi3 : hi_id w3 = N + 1 + 1) by reflexivity.
  assert (Hi4 : hi_id w4 = T) by reflexivity.
  assert (Hinc : forall y, In y [w1; w2; w3; w4] ->
            In y ((((hc_instructions c ++ [w1]) ++ [w2]) ++ [w3]) ++ [w4])).
  { intros y Hy. rewrite <- !app_assoc. apply in_or_app. right. exact Hy. }
  eexists. exists (replace_uses id T w1), (replace_uses id T w2), (replace_uses id T w4).
  split; [reflexivity |].
  split; [apply ReplaceUsesAndRemove_In; exists w1;
          split; [apply Hinc; left; reflexivity | split; [rewrite Hi1; lia | reflexivity]] |].
  split; [apply ReplaceUsesAndRemove_In; exists w2;
          split; [apply Hinc; right; left; reflexivity | split; [rewrite Hi2; lia | reflexivity]] |].
  split; [apply ReplaceUsesAndRemove_In; exists w4;
          split; [apply Hinc; right; right; right; left; reflexivity
                 | split; [rewrite Hi4; exact HT | reflexivity]] |].
  split; [reflexivity |]. split; [reflexivity |]. split; [reflexivity |].
  split; [cbn; rewrite Hshape; reflexivity |].
  split; [reflexivity |]. split; [reflexivity |]. split; [reflexivity |].
  split; [cbn; rewrite replace_operand_other by lia; reflexivity |].
  split; [reflexivity |].
  split; [cbn; rewrite Hshape; reflexivity |].
  split; [reflexivity |].
  split; [cbn; rewrite replace_operand_other by lia; reflexivity |].
  split; [cbn; rewrite Hshape; reflexivity |].
  split; [reflexivity |].
  split.
  - intros i Hi Hne. apply ReplaceUsesAndRemove_In. exists i.
    split; [rewrite <- !app_assoc; apply in_or_app; left; exact Hi |].
    split; [exact Hne | reflexivity].
  - intros i Hi. apply ReplaceUsesAndRemove_In in Hi. destruct Hi as [y [_ [Hne ->]]].
    split; [exact Hne |].
    cbn [hi_operands replace_uses]. intros Hop. apply in_map_iff in Hop.
    destruct Hop as [op [Hop _]]. exact (replace_operand_ne id T op HT Hop).
Qed.

(** Witness for C7: the forward F32 convolution of [comp1] on [env1]. *)
Lemma rewrite_on_success_witness :
  exists c' call,
    RunOnInstruction env1 comp1 3 = (Ok true, c', snd pick_fwd_f32) /\
    In call (hc_instructions c') /\
    hi_backend_config call = Some (mkBackendConfig 2 true) /\
    hi_shape call = MakeTupleShape [out_f32; MakeShape U8 [250]].
Proof.
  destruct (rewrite_on_success env1 comp1 3 conv_instr in_f32 filt_f32
              (PickBestAlgorithm env1 kForward in_f32 filt_f32 out_f32 [] dn2d conv_instr)
              2 true 250 (snd pick_fwd_f32) out_f32)
    as [c' [call [_ [_ [Hrun [Hin [_ [_ [_ [_ [Hcfg [Hsh _]]]]]]]]]]]].
  - reflexivity.
  - reflexivity.
  - reflexivity.
  - reflexivity.
  - reflexivity.
  - vm_compute. reflexivity.
  - reflexivity.
  - intros i Hi. simpl in Hi. destruct Hi as [<- | [<- | [<- | []]]]; simpl; lia.
  - exists c', call. split; [exact Hrun |]. split; [exact Hin |]. split; [exact Hcfg | exact Hsh].
Defined.

(** Witness for C9 (amended): [env1] with the version query failing, against
    cuDNN 6. *)
Lemma version_error_as_pre7_witness :
  PickBestAlgorithm (with_dnn_version env1 (SErr version_error)) kForward in_f32 filt_f32
    out_f32 [] dn2d conv_instr []
  = PickBestAlgorithm (with_dnn_version env1 cudnn6) kForward in_f32 filt_f32
      out_f32 [] dn2d conv_instr [].
Proof.
  apply (version_error_as_pre7 env1 version_error (mkVersion 6 0 0)).
  simpl. lia.
Defined.

(** Witness for C2 (amended): a request one byte over the budget, a request
    of 100 bytes, a trial of [env_all_fail], an input operand of 8 GiB, and
    a filter buffer the device allocator refuses. *)
Lemma scratch_budget_per_request_witness :
  Scratch.AllocateBytes dev_alloc (Scratch.create 0) (2 ^ 32 + 1) =
  (Scratch.AllocErr (mkStatus RESOURCE_EXHAUSTED (Scratch.limit_message (2 ^ 32 + 1))),
   Scratch.create 0) /\
  fst (Scratch.AllocateBytes dev_alloc (Scratch.create 0) 100) =
  Scratch.AllocOk (mkDeviceMemory 4096 100) /\
  trial env_all_fail dev_alloc true (mkDeviceMemory 4096 96) alg1 initial_loop_state [] =
  (Ok initial_loop_state, [EvTrial alg1 false default_profile 0]) /\
  fst (PickBestAlgorithm env1 kForward (ArrayShape F32 [1; 1; 2 ^ 31]) filt_f32 out_f32 []
         dn2d conv_instr []) =
  Err (mkStatus RESOURCE_EXHAUSTED
         (Scratch.limit_message (ByteSizeOf (ArrayShape F32 [1; 1; 2 ^ 31])))) /\
  fst (PickBestAlgorithm env_refuse_filter kForward in_f32 filt_f32 out_f32 [] dn2d
         conv_instr []) = Err device_oom.
Proof.
  destruct scratch_budget_per_request as [P1 [P2 [P3 [P4 P5]]]].
  split; [apply P1; cbv [Scratch.GetMemoryLimitInBytes]; rewrite Z.shiftl_1_l; lia |].
  split; [rewrite P2; [reflexivity | cbv [Scratch.GetMemoryLimitInBytes];
                                     rewrite Z.shiftl_1_l; lia] |].
  split.
  - apply (P3 env_all_fail dev_alloc true (mkDeviceMemory 4096 96) alg1 initial_loop_state []
             (mkStatus RESOURCE_EXHAUSTED (Scratch.limit_message (2 ^ 33))) (Scratch.create 0)).
    vm_compute. reflexivity.
  - split; [apply P4; [reflexivity | reflexivity | vm_compute; reflexivity] |].
    apply P5; [reflexivity | reflexivity |]. right.
    exists (mkDeviceMemory 4096 128),
      (snd (Scratch.AllocateBytes refusing_alloc (Scratch.create 0) 128)).
    split; [vm_compute; reflexivity | left; vm_compute; reflexivity].
Defined.

(* ================================================================== *)
(** * Further properties of the pass *)

(** *** The Winograd size check without overflow *)

Lemma wrap64_mod : forall x, wrap64 x mod 2 ^ 64 = x mod 2 ^ 64.
Proof.
  intros x. unfold wrap64.
  rewrite Zminus_mod_idemp_l. f_equal. lia.
Qed.

Lemma wrap64_congr : forall x y, x mod 2 ^ 64 = y mod 2 ^ 64 -> wrap64 x = wrap64 y.
Proof.
  intros x y H. unfold wrap64.
  rewrite <- (Z.add_mod_idemp_l x), <- (Z.add_mod_idemp_l y) by lia.
  rewrite H. reflexivity.
Qed.

Lemma wrap64_id : forall x, - 2 ^ 63 <= x < 2 ^ 63 -> wrap64 x = x.
Proof.
  intros x H. unfold wrap64. rewrite Z.mod_small by lia. lia.
Qed.

Lemma mul_mod_congr : forall x y c,
  x mod 2 ^ 64 = y mod 2 ^ 64 -> (x * c) mod 2 ^ 64 = (y * c) mod 2 ^ 64.
Proof.
  intros x y c H. rewrite <- (Z.mul_mod_idemp_l x), H, Z.mul_mod_idemp_l by lia.
  reflexivity.
Qed.

(** The machine computation of [total_size] agrees with the exact product
    modulo 2^64. *)
Lemma total_size_mod : forall a b c d,
  wrap64 (mul_u64 (mul64 (mul64 (mul64 a b) c) d) 4) = wrap64 (a * b * d * c * 4).
Proof.
  intros a b c d. apply wrap64_congr. unfold mul_u64, to_u64, mul64.
  rewrite Z.mod_mod by lia.
  replace (a * b * d * c) with (a * b * c * d) by ring.
  apply mul_mod_congr. rewrite Z.mod_mod, wrap64_mod by lia.
  apply mul_mod_congr. rewrite wrap64_mod.
  apply mul_mod_congr. rewrite wrap64_mod.
  reflexivity.
Qed.

(** X1: for a library older than version 7 (or a failed version query),
    as long as the exact [total_size] fits in [int64], the code's machine
    arithmetic computes it exactly: Winograd is included exactly when the
    exact size is below 2^31. *)
Theorem winograd_exact_without_overflow : forall version input_shape output_shape dnums,
  match version with SOk v => major_version v < 7 | SErr _ => True end ->
  - 2 ^ 63 <= winograd_total_size_spec input_shape output_shape dnums < 2 ^ 63 ->
  ShouldIncludeWinogradNonfusedAlgo version input_shape output_shape dnums =
  Z.ltb (winograd_total_size_spec input_shape output_shape dnums) threshold.
Proof.
  intros version i o d Hv Hr. unfold ShouldIncludeWinogradNonfusedAlgo.
  replace (match version with SOk v => Z.geb (major_version v) 7 | SErr _ => false end)
    with false
    by (destruct version as [v | s]; [symmetry; rewrite Z.geb_leb; apply Z.leb_gt; exact Hv
                                     | reflexivity]).
  cbv zeta. rewrite total_size_mod.
  unfold winograd_total_size_spec in *. cbv zeta in *.
  rewrite (wrap64_id _ Hr). reflexivity.
Qed.

(** *** The rendering of an algorithm *)

Lemma string_app_assoc : forall a b c : string,
  ((a ++ b) ++ c)%string = (a ++ (b ++ c))%string.
Proof. induction a as [| ch a IH]; intros b c; simpl; [reflexivity | rewrite IH; reflexivity]. Qed.

Lemma string_app_nil_r : forall a : string, (a ++ "")%string = a.
Proof. induction a as [| ch a IH]; simpl; [reflexivity | rewrite IH; reflexivity]. Qed.

Lemma all_digits_app : forall a b,
  all_digits (a ++ b) = all_digits a && all_digits b.
Proof.
  induction a as [| ch a IH]; intros b; simpl; [reflexivity |].
  rewrite IH, andb_assoc. reflexivity.
Qed.

Lemma decimal_value_app : forall a b acc,
  decimal_value (a ++ b) acc = decimal_value b (decimal_value a acc).
Proof. induction a as [| ch a IH]; intros b acc; simpl; [reflexivity | apply IH]. Qed.

Lemma digit_char : forall n, 0 <= n < 10 ->
  is_digit (ascii_of_nat (48 + Z.to_nat n)) = true /\
  Z.of_nat (nat_of_ascii (ascii_of_nat (48 + Z.to_nat n))) - 48 = n.
Proof.
  intros n Hn.
  assert (Hlt : (Z.to_nat n < 10)%nat)
    by (apply Nat2Z.inj_lt; rewrite Z2Nat.id by lia; simpl; lia).
  unfold is_digit. rewrite nat_ascii_embedding by lia.
  split; [apply andb_true_iff; split; apply Nat.leb_le |];
    remember (Z.to_nat n) as k; lia.
Qed.

Lemma digits_of_Z_S : forall fuel n acc,
  digits_of_Z (S fuel) n acc =
  if Z.ltb n 10 then String (ascii_of_nat (48 + Z.to_nat (n mod 10))) acc
  else digits_of_Z fuel (n / 10) (String (ascii_of_nat (48 + Z.to_nat (n mod 10))) acc).
Proof. reflexivity. Qed.

(** The decimal digits of a non-negative integer, with enough fuel. *)
Lemma digits_of_Z_spec : forall fuel n acc,
  0 <= n < 10 ^ Z.of_nat (S fuel) ->
  exists d, digits_of_Z (S fuel) n acc = (d ++ acc)%string /\ d <> EmptyString /\
    all_digits d = true /\ decimal_value d 0 = n.
Proof.
  induction fuel as [| fuel IH]; intros n acc Hn.
  - simpl in Hn. rewrite digits_of_Z_S.
    replace (Z.ltb n 10) with true by (symmetry; apply Z.ltb_lt; lia).
    rewrite Z.mod_small by lia.
    destruct (digit_char n ltac:(lia)) as [Hd Hv].
    exists (String (ascii_of_nat (48 + Z.to_nat n)) EmptyString).
    split; [reflexivity |]. split; [discriminate |].
    split; [cbn [all_digits]; rewrite Hd; reflexivity | cbn [decimal_value]; lia].
  - rewrite digits_of_Z_S.
    destruct (digit_char (n mod 10) ltac:(pose proof (Z.mod_pos_bound n 10); lia)) as [Hd Hv].
    destruct (Z.ltb n 10) eqn:E.
    + apply Z.ltb_lt in E. rewrite Z.mod_small in Hd, Hv |- * by lia.
      exists (String (ascii_of_nat (48 + Z.to_nat n)) EmptyString).
      split; [reflexivity |]. split; [discriminate |].
      split; [cbn [all_digits]; rewrite Hd; reflexivity | cbn [decimal_value]; lia].
    + apply Z.ltb_ge in E.
      destruct (IH (n / 10) (String (ascii_of_nat (48 + Z.to_nat (n mod 10))) acc))
        as [d [Hds [Hne [Hall Hval]]]].
      { split; [apply Z.div_pos; lia |].
        apply Z.div_lt_upper_bound; [lia |].
        replace (10 * 10 ^ Z.of_nat (S fuel)) with (10 ^ Z.of_nat (S (S fuel))); [lia |].
        rewrite (Nat2Z.inj_succ (S fuel)), Z.pow_succ_r by lia. reflexivity. }
      exists (d ++ String (ascii_of_nat (48 + Z.to_nat (n mod 10))) EmptyString)%string.
      split; [rewrite Hds, string_app_assoc; reflexivity |].
      split; [destruct d; [contradiction | discriminate] |].
      split; [rewrite all_digits_app, Hall; cbn [all_digits]; rewrite Hd; reflexivity |].
      rewrite decimal_value_app, Hval. cbn [decimal_value]. rewrite Hv.
      pose proof (Z.div_mod n 10). lia.
Qed.

Lemma string_of_Z_shape : forall z, - 2 ^ 63 <= z < 2 ^ 63 ->
  exists d, d <> EmptyString /\ all_digits d = true /\
    ((0 <= z /\ string_of_Z z = d /\ decimal_value d 0 = z) \/
     (z < 0 /\ string_of_Z z = String "-"%char d /\ decimal_value d 0 = - z)).
Proof.
  intros z Hz. unfold string_of_Z.
  destruct (Z.ltb z 0) eqn:E.
  - apply Z.ltb_lt in E.
    destruct (digits_of_Z_spec 19 (- z) EmptyString) as [d [Hds [Hne [Hall Hval]]]];
      [simpl; lia |].
    exists d. split; [exact Hne |]. split; [exact Hall |]. right.
    split; [exact E |]. split; [| exact Hval].
    rewrite Hds, string_app_nil_r. reflexivity.
  - apply Z.ltb_ge in E.
    destruct (digits_of_Z_spec 19 z EmptyString) as [d [Hds [Hne [Hall Hval]]]];
      [simpl; lia |].
    exists d. split; [exact Hne |]. split; [exact Hall |]. left.
    split; [exact E |]. split; [| exact Hval].
    rewrite Hds, string_app_nil_r. reflexivity.
Qed.

(** A run of digits followed by a text that does not start with a digit
    splits in one way only. *)
Lemma digits_split_unique : forall d1 d2 t1 t2,
  all_digits d1 = true -> all_digits d2 = true ->
  no_digit_head t1 -> no_digit_head t2 ->
  (d1 ++ t1)%string = (d2 ++ t2)%string -> d1 = d2 /\ t1 = t2.
Proof.
  induction d1 as [| c1 d1 IH]; intros [| c2 d2] t1 t2 H1 H2 Ht1 Ht2 H;
    cbn [all_digits append] in *.
  - split; [reflexivity | exact H].
  - subst t1. cbn [no_digit_head] in Ht1. apply andb_true_iff in H2. destruct H2 as [H2 _].
    rewrite H2 in Ht1. discriminate.
  - subst t2. cbn [no_digit_head] in Ht2. apply andb_true_iff in H1. destruct H1 as [H1 _].
    rewrite H1 in Ht2. discriminate.
  - injection H as Hc H. subst c2.
    apply andb_true_iff in H1. apply andb_true_iff in H2.
    destruct (IH d2 t1 t2 (proj2 H1) (proj2 H2) Ht1 Ht2 H) as [-> ->].
    split; reflexivity.
Qed.

Lemma AlgorithmToString_split : forall a,
  AlgorithmToString a =
  (string_of_Z (algo_id a) ++ (if tensor_ops_enabled a then "+TC" else ""))%string.
Proof.
  intros [id []]; unfold AlgorithmToString; simpl; [reflexivity |].
  rewrite string_app_nil_r. reflexivity.
Qed.

Lemma tc_suffix_head : forall b : bool, no_digit_head (if b then "+TC" else "")%string.
Proof. intros []; reflexivity. Qed.

(** X2: the rendering of an algorithm in the log messages is unambiguous:
    two algorithms with [int64] ids that render to the same text are the
    same algorithm (same id, same tensor-op flag). *)
Theorem AlgorithmToString_injective : forall a b,
  - 2 ^ 63 <= algo_id a < 2 ^ 63 -> - 2 ^ 63 <= algo_id b < 2 ^ 63 ->
  AlgorithmToString a = AlgorithmToString b -> a = b.
Proof.
  intros a b Ha Hb H. rewrite !AlgorithmToString_split in H.
  destruct (string_of_Z_shape _ Ha) as [da [Hna [Hda Ca]]].
  destruct (string_of_Z_shape _ Hb) as [db [Hnb [Hdb Cb]]].
  assert (Hsplit : forall s1 s2 : string,
            (String "-"%char s1 = s2)%string -> all_digits s2 = true -> False).
  { intros s1 s2 <- Hs. discriminate Hs. }
  destruct Ca as [[Ha0 [Sa Va]] | [Ha0 [Sa Va]]];
  destruct Cb as [[Hb0 [Sb Vb]] | [Hb0 [Sb Vb]]];
  rewrite Sa, Sb in H; simpl in H.
  - destruct (digits_split_unique _ _ _ _ Hda Hdb (tc_suffix_head _) (tc_suffix_head _) H)
      as [Hd Ht].
    destruct a as [ia ta], b as [ib tb]; simpl in *.
    assert (ia = ib) by congruence. destruct ta, tb; try discriminate Ht; congruence.
  - destruct da as [| ca da']; [contradiction |]. simpl in H. injection H as Hc _.
    subst ca. discriminate Hda.
  - destruct db as [| cb db']; [contradiction |]. simpl in H. injection H as Hc _.
    subst cb. discriminate Hdb.
  - injection H as H.
    destruct (digits_split_unique _ _ _ _ Hda Hdb (tc_suffix_head _) (tc_suffix_head _) H)
      as [Hd Ht].
    destruct a as [ia ta], b as [ib tb]; simpl in *.
    assert (ia = ib) by (subst; lia). destruct ta, tb; try discriminate Ht; congruence.
Qed.

(** *** The per-device mutexes of LockGpu *)

Lemma key_eqb_spec : forall a b, key_eqb a b = true <-> a = b.
Proof.
  intros [a1 a2] [b1 b2]. unfold key_eqb. cbn [fst snd].
  rewrite andb_true_iff, !Z.eqb_eq.
  split; [intros [-> ->]; reflexivity | intros H; inversion H; split; reflexivity].
Qed.

Lemma find_mutex_app : forall k l key m,
  find_mutex k (l ++ [(key, m)]) =
  match find_mutex k l with
  | Some x => Some x
  | None => if key_eqb key k then Some m else None
  end.
Proof.
  intros k l key m. unfold find_mutex. induction l as [| [k' m'] l IH]; simpl.
  - destruct (key_eqb key k); reflexivity.
  - destruct (key_eqb k' k); [reflexivity | exact IH].
Qed.

Lemma LockGpu_step : forall g p d m g',
  LockGpu g p d = (m, g') -> mutexes_ok g ->
  mutexes_ok g' /\ find_mutex (p, d) (mutexes g') = Some m /\
  (forall k x, find_mutex k (mutexes g) = Some x -> find_mutex k (mutexes g') = Some x).
Proof.
  intros g p d m g' H [Hinj Hlt]. unfold LockGpu in H.
  destruct (find_mutex (p, d) (mutexes g)) as [x |] eqn:E.
  - inversion H; subst. split; [split; assumption |]. split; [exact E | auto].
  - inversion H; subst; clear H. unfold mutexes_ok. cbn [mutexes mutexes_constructed].
    split; [split |].
    + intros k1 k2 x H1 H2. rewrite find_mutex_app in H1, H2.
      destruct (find_mutex k1 (mutexes g)) as [x1 |] eqn:E1;
      destruct (find_mutex k2 (mutexes g)) as [x2 |] eqn:E2.
      * inversion H1; inversion H2; subst. eapply Hinj; eassumption.
      * inversion H1; subst. specialize (Hlt _ _ E1).
        destruct (key_eqb (p, d) k2); inversion H2; subst; lia.
      * inversion H2; subst. specialize (Hlt _ _ E2).
        destruct (key_eqb (p, d) k1); inversion H1; subst; lia.
      * destruct (key_eqb (p, d) k1) eqn:K1; [| discriminate].
        destruct (key_eqb (p, d) k2) eqn:K2; [| discriminate].
        apply key_eqb_spec in K1, K2. congruence.
    + intros k x Hk. rewrite find_mutex_app in Hk.
      destruct (find_mutex k (mutexes g)) eqn:E1.
      * inversion Hk; subst. specialize (Hlt _ _ E1). lia.
      * destruct (key_eqb (p, d) k); inversion Hk; subst; lia.
    + split.
      * rewrite find_mutex_app, E.
        replace (key_eqb (p, d) (p, d)) with true
          by (symmetry; apply key_eqb_spec; reflexivity).
        reflexivity.
      * intros k x Hk. rewrite find_mutex_app, Hk. reflexivity.
Qed.

Lemma LockGpu_calls_spec : forall devices g ms g',
  LockGpu_calls g devices = (ms, g') -> mutexes_ok g ->
  mutexes_ok g' /\
  (forall k x, find_mutex k (mutexes g) = Some x -> find_mutex k (mutexes g') = Some x) /\
  Forall2 (fun dev m => find_mutex dev (mutexes g') = Some m) devices ms.
Proof.
  induction devices as [| [p d] rest IH]; intros g ms g' H Hok.
  - inversion H; subst. split; [exact Hok |]. split; [auto | constructor].
  - cbn [LockGpu_calls] in H. destruct (LockGpu g p d) as [m g1] eqn:E1.
    destruct (LockGpu_calls g1 rest) as [ms1 g2] eqn:E2. inversion H; subst; clear H.
    destruct (LockGpu_step _ _ _ _ _ E1 Hok) as [Hok1 [Hf1 Hmono1]].
    destruct (IH _ _ _ E2 Hok1) as [Hok2 [Hmono2 Hall]].
    split; [exact Hok2 |]. split; [auto |]. constructor; [auto | exact Hall].
Qed.

Lemma Forall2_nth_error : forall A B (R : A -> B -> Prop) l1 l2 i a b,
  Forall2 R l1 l2 -> nth_error l1 i = Some a -> nth_error l2 i = Some b -> R a b.
Proof.
  intros A B R l1 l2 i a b H. revert i. induction H as [| x y l1 l2 Hxy H IH];
    intros [| i] Ha Hb; simpl in *; try discriminate.
  - inversion Ha; inversion Hb; subst. exact Hxy.
  - exact (IH i Ha Hb).
Qed.

(** X3: over any sequence of [LockGpu] calls in a process, two calls lock
    the same mutex exactly when they are for the same device (same platform
    and device ordinal): autotuning is serialized per device, and calls for
    different devices never wait for each other's mutex. *)
Theorem LockGpu_one_mutex_per_device : forall devices ms g i j di dj mi mj,
  LockGpu_calls no_gpu_mutexes devices = (ms, g) ->
  nth_error devices i = Some di -> nth_error devices j = Some dj ->
  nth_error ms i = Some mi -> nth_error ms j = Some mj ->
  (mi = mj <-> di = dj).
Proof.
  intros devices ms g i j di dj mi mj H Hi Hj Hmi Hmj.
  assert (Hok0 : mutexes_ok no_gpu_mutexes)
    by (split; intros; cbv [no_gpu_mutexes mutexes find_mutex find] in *; discriminate).
  destruct (LockGpu_calls_spec _ _ _ _ H Hok0) as [[Hinj _] [_ Hall]].
  pose proof (Forall2_nth_error _ _ _ _ _ _ _ _ Hall Hi Hmi) as Fi.
  pose proof (Forall2_nth_error _ _ _ _ _ _ _ _ Hall Hj Hmj) as Fj.
  cbn beta in Fi, Fj.
  split.
  - intros ->. exact (Hinj _ _ _ Fi Fj).
  - intros ->. congruence.
Qed.

(** *** The phases of a picking call *)

Lemma setup_log_quiet : forall l, forallb setup_event l = true ->
  trials_of l = [] /\ comparators_created l = [] /\ comparisons_of l = [] /\
  error_count l = O /\ ~ In EvBlockHostUntilDone l.
Proof.
  induction l as [| ev l IH]; intros H.
  - repeat split; auto.
  - cbn [forallb] in H. apply andb_true_iff in H. destruct H as [He Hl].
    destruct (IH Hl) as [T [C [P [E N]]]].
    destruct ev; cbn [setup_event] in He; try discriminate;
      cbn [trials_of comparators_created comparisons_of error_count];
      (repeat split; try assumption);
      intros Hx; destruct Hx as [Hx | Hx]; first [discriminate Hx | exact (N Hx)].
Qed.

Lemma initialize_buffers_setup : forall cc i f o log r log',
  initialize_buffers cc i f o log = (r, log') ->
  exists ext, log' = log ++ ext /\ forallb setup_event ext = true.
Proof.
  intros cc i f o log r log' H.
  unfold initialize_buffers, initialize_f16 in H. destruct cc;
    cbv [bind check ret crash emit] in H;
    repeat match type of H with context [if ?b then _ else _] => destruct b end;
    inversion H; subst; eexists; (split; [log_ext |]); reflexivity.
Qed.

Ltac setup_stop :=
  left; split;
  [ subst; rewrite ?forallb_app; cbn [forallb setup_event andb];
    repeat match goal with Ht : forallb setup_event _ = true |- _ => rewrite Ht end;
    reflexivity
  | intros ? ?; subst; discriminate ].

(** A picking call either stops during its setup (the [CHECK]s, the operand
    allocations, the buffer initialization), having logged setup events
    only, or reaches [BlockHostUntilDone]; there it stops on a failed
    synchronization or a failed candidate query, or runs the candidate
    loop. *)
Lemma pick_phases : forall env kind input_shape filter_shape output_shape window
    dnums instr r log,
  PickBestAlgorithm env kind input_shape filter_shape output_shape window dnums instr []
  = (r, log) ->
  (forallb setup_event log = true /\ forall x, r <> Ok x) \/
  exists ib fb ob,
    (is_F16 input_shape = true -> f16_ok ib /\ f16_ok fb /\ f16_ok ob) /\
    ((exists s, env_block_host_until_done env = SErr s /\ r = Err s /\
                log = prologue_log (is_F16 input_shape) ib fb ob) \/
     (env_block_host_until_done env = SOk tt /\
      ((env_get_algorithms env kind
          (ShouldIncludeWinogradNonfusedAlgo (env_dnn_version env) input_shape output_shape dnums)
          = None /\
        r = Crash /\ log = prologue_log (is_F16 input_shape) ib fb ob) \/
       (exists algs lr,
          env_get_algorithms env kind
            (ShouldIncludeWinogradNonfusedAlgo (env_dnn_version env) input_shape output_shape dnums)
            = Some algs /\
          trial_loop env (picker_allocator env) (is_F16 input_shape)
            (result_buf kind ib fb ob) algs initial_loop_state
            (prologue_log (is_F16 input_shape) ib fb ob) = (lr, log) /\
          r = pick_epilogue instr lr)))).
Proof.
  intros env kind i f o w d instr r log H. unfold PickBestAlgorithm in H.
  bind_case H;
    [| apply check_inv in Hm; destruct Hm as [_ [[_ ?] | [_ ?]]]; discriminate
     | apply check_inv in Hm; destruct Hm as [? _]; setup_stop ].
  apply check_inv in Hm. destruct Hm as [? _]. subst.
  bind_case H;
    [| apply check_inv in Hm; destruct Hm as [_ [[_ ?] | [_ ?]]]; discriminate
     | apply check_inv in Hm; destruct Hm as [? _]; setup_stop ].
  apply check_inv in Hm. destruct Hm as [? _]. subst.
  cbv beta zeta in H.
  bind_case H;
    [| apply alloc_or_return_inv in Hm;
       destruct Hm as [[? [? [? _]]] | [? _]]; [discriminate | setup_stop]
     | apply alloc_or_return_inv in Hm;
       destruct Hm as [[? [? [? _]]] | [? _]]; [discriminate | setup_stop] ].
  apply alloc_or_return_inv in Hm.
  destruct Hm as [[ib [sa1 [Ha Hl]]] | [_ Hne]]; [| exfalso; exact (Hne _ eq_refl)].
  injection Ha as Ha; subst. cbv beta iota in H.
  bind_case H;
    [| apply alloc_or_return_inv in Hm;
       destruct Hm as [[? [? [? _]]] | [? _]]; [discriminate | setup_stop]
     | apply alloc_or_return_inv in Hm;
       destruct Hm as [[? [? [? _]]] | [? _]]; [discriminate | setup_stop] ].
  apply alloc_or_return_inv in Hm.
  destruct Hm as [[fb [sa2 [Ha Hl]]] | [_ Hne]]; [| exfalso; exact (Hne _ eq_refl)].
  injection Ha as Ha; subst. cbv beta iota in H.
  bind_case H;
    [| apply alloc_or_return_inv in Hm;
       destruct Hm as [[? [? [? _]]] | [? _]]; [discriminate | setup_stop]
     | apply alloc_or_return_inv in Hm;
       destruct Hm as [[? [? [? _]]] | [? _]]; [discriminate | setup_stop] ].
  apply alloc_or_return_inv in Hm.
  destruct Hm as [[ob [sa3 [Ha Hl]]] | [_ Hne]]; [| exfalso; exact (Hne _ eq_refl)].
  injection Ha as Ha; subst. cbv beta iota in H.
  bind_case H;
    [| apply initialize_buffers_inv in Hm;
       destruct Hm as [[? _] | [? _]]; discriminate
     | pose proof Hm as Hm';
       apply initialize_buffers_inv in Hm; destruct Hm as [[? _] | [? _]]; [discriminate |];
       apply initialize_buffers_setup in Hm'; destruct Hm' as [ext [? Ht]]; setup_stop ].
  apply initialize_buffers_inv in Hm.
  destruct Hm as [[_ [Hl Hf16]] | [? _]]; [| discriminate].
  subst.
  bind_case H;
    [| exfalso; eapply emit_not_err; exact Hm | exfalso; eapply emit_not_crash; exact Hm].
  apply emit_inv in Hm. destruct Hm as [_ Hl]. subst.
  right. exists ib, fb, ob. split; [exact Hf16 |].
  destruct (env_block_host_until_done env) as [[] | s] eqn:Eb.
  2: { left. exists s. split; [reflexivity |].
       bind_case H; cbv [fail] in Hm; inversion Hm; subst; split; reflexivity. }
  right. split; [reflexivity |].
  bind_case H; cbv [ret] in Hm; inversion Hm; subst; clear Hm.
  destruct (env_get_algorithms env kind
              (ShouldIncludeWinogradNonfusedAlgo (env_dnn_version env) i o d))
    as [algs |] eqn:Ea.
  2: { left. split; [reflexivity |].
       bind_case H; cbv [crash] in Hm; inversion Hm; subst; split; reflexivity. }
  right. exists algs. bind_case H; cbv [ret] in Hm; inversion Hm; subst; clear Hm.
  bind_case_as H st logl Hm s Hr.
  - exists (Ok st).
    destruct (is_valid (best_result st)) eqn:Hv; cbv [ret fail] in H; inversion H; subst;
      (split; [reflexivity |]); (split; [exact Hm |]); simpl; rewrite Hv; reflexivity.
  - exists (Err s). subst. split; [reflexivity |]. split; [exact Hm | reflexivity].
  - exists Crash. subst. split; [reflexivity |]. split; [exact Hm | reflexivity].
Qed.

(** *** Without cross-checking *)

Lemma trial_no_cross_check : forall env alloc rbuf alg st log r log',
  comparator st = None ->
  trial env alloc false rbuf alg st log = (r, log') ->
  exists ext, log' = log ++ ext /\ comparators_created ext = [] /\
    comparisons_of ext = [] /\ error_count ext = O /\
    (r = Crash ->
       RunCudnnConvolution env alloc alg (Scratch.create (env_device_ordinal env)) = RunCrash) /\
    (forall st', r = Ok st' -> comparator st' = None).
Proof.
  intros env alloc rbuf alg st log r log' Hc H.
  trial_split H; try congruence;
    inversion H; subst; clear H;
    (eexists; split; [log_ext |]);
    cbn [comparators_created comparisons_of error_count app];
    (split; [reflexivity |]); (split; [reflexivity |]); (split; [reflexivity |]);
    (split; [intros Hx; first [discriminate Hx | reflexivity] |]);
    intros st' Hx; inversion Hx; subst; cbn [set_best comparator]; assumption.
Qed.

Lemma loop_no_cross_check : forall env alloc rbuf algs st log r log',
  comparator st = None ->
  trial_loop env alloc false rbuf algs st log = (r, log') ->
  exists ext, log' = log ++ ext /\ comparators_created ext = [] /\
    comparisons_of ext = [] /\ error_count ext = O /\
    (r = Crash -> exists alg, In alg algs /\
       RunCudnnConvolution env alloc alg (Scratch.create (env_device_ordinal env)) = RunCrash).
Proof.
  intros env alloc rbuf algs. induction algs as [| alg rest IH];
    intros st log r log' Hc H.
  - cbv [trial_loop ret] in H. inversion H; subst. exists [].
    split; [symmetry; apply app_nil_r |].
    split; [reflexivity |]. split; [reflexivity |]. split; [reflexivity |].
    intros Hx; discriminate Hx.
  - cbn [trial_loop] in H. bind_case_as H st1 log1 Hm s Hr.
    + destruct (trial_no_cross_check _ _ _ _ _ _ _ _ Hc Hm)
        as [e1 [Hl1 [C1 [P1 [E1 [_ Hst]]]]]].
      destruct (IH st1 log1 r log' (Hst st1 eq_refl) H) as [e2 [Hl2 [C2 [P2 [E2 Hcr]]]]].
      exists (e1 ++ e2). subst. split; [rewrite app_assoc; reflexivity |].
      rewrite comparators_created_app, comparisons_of_app, error_count_app, C1, C2, P1, P2, E1, E2.
      split; [reflexivity |]. split; [reflexivity |]. split; [reflexivity |].
      intros Hx. destruct (Hcr Hx) as [a [Ha Hrun]]. exists a. split; [right; exact Ha | exact Hrun].
    + exfalso. apply trial_inv in Hm. destruct Hm as [? [_ [Hne _]]]. exact (Hne s eq_refl).
    + subst r. destruct (trial_no_cross_check _ _ _ _ _ _ _ _ Hc Hm)
        as [e1 [Hl1 [C1 [P1 [E1 [Hcr _]]]]]].
      exists e1. split; [exact Hl1 |]. split; [exact C1 |]. split; [exact P1 |].
      split; [exact E1 |].
      intros _. exists alg. split; [left; reflexivity | apply Hcr; reflexivity].
Qed.

Lemma prologue_quiet : forall i f o,
  comparators_created (prologue_log false i f o) = [] /\
  comparisons_of (prologue_log false i f o) = [] /\
  error_count (prologue_log false i f o) = O.
Proof. intros i f o. repeat split. Qed.

(** X4: when the input is not F16, a picking call creates no buffer
    comparator, makes no comparison and logs no error-level diagnostic; it
    can then abort only during its setup (before [BlockHostUntilDone]), on
    a failed candidate query, or when running one of the queried
    candidates aborts. *)
Theorem pick_without_f16_no_cross_check : forall env kind input_shape filter_shape
    output_shape window dnums instr r log,
  is_F16 input_shape = false ->
  PickBestAlgorithm env kind input_shape filter_shape output_shape window dnums instr []
  = (r, log) ->
  comparators_created log = [] /\ comparisons_of log = [] /\ error_count log = O /\
  (r = Crash ->
     ~ In EvBlockHostUntilDone log \/
     env_get_algorithms env kind
       (ShouldIncludeWinogradNonfusedAlgo (env_dnn_version env) input_shape output_shape dnums)
       = None \/
     exists algs alg,
       env_get_algorithms env kind
         (ShouldIncludeWinogradNonfusedAlgo (env_dnn_version env) input_shape output_shape dnums)
         = Some algs /\ In alg algs /\
       RunCudnnConvolution env (picker_allocator env) alg
         (Scratch.create (env_device_ordinal env)) = RunCrash).
Proof.
  intros env kind i f o w d instr r log Hf H.
  destruct (pick_phases _ _ _ _ _ _ _ _ _ _ H) as [[Hs _] | [ib [fb [ob [_ Hc]]]]].
  - destruct (setup_log_quiet _ Hs) as [_ [C [P [E N]]]].
    split; [exact C |]. split; [exact P |]. split; [exact E |].
    intros _. left. exact N.
  - rewrite Hf in Hc. destruct (prologue_quiet ib fb ob) as [C0 [P0 E0]].
    destruct Hc as [[s [_ [Hr Hl]]] | [_ [[Ha [Hr Hl]] | [algs [lr [Ea [Hl Hr]]]]]]].
    + subst. split; [exact C0 |]. split; [exact P0 |]. split; [exact E0 |].
      intros Hx; discriminate Hx.
    + subst. split; [exact C0 |]. split; [exact P0 |]. split; [exact E0 |].
      intros _. right; left. exact Ha.
    + destruct (loop_no_cross_check _ _ _ _ initial_loop_state _ _ _ eq_refl Hl)
        as [ext [Hlog [C [P [E Hcr]]]]].
      subst log.
      rewrite comparators_created_app, comparisons_of_app, error_count_app, C0, P0, E0, C, P, E.
      split; [reflexivity |]. split; [reflexivity |]. split; [reflexivity |].
      intros Hx. right; right. subst r.
      destruct lr as [st | s |]; cbn [pick_epilogue] in Hx;
        [destruct (is_valid (best_result st)); discriminate Hx | discriminate Hx |].
      destruct (Hcr eq_refl) as [alg [Hin Hrun]].
      exists algs, alg. split; [exact Ea |]. split; [exact Hin | exact Hrun].
Qed.

(** *** The returned candidate *)

Lemma AllocateBytes_ok_total : forall alloc sa n b sa',
  Scratch.AllocateBytes alloc sa n = (Scratch.AllocOk b, sa') ->
  Scratch.TotalAllocatedBytes sa' = Scratch.TotalAllocatedBytes sa + n.
Proof.
  intros alloc sa n b sa' H. unfold Scratch.AllocateBytes in H.
  destruct (Z.ltb n 0); [discriminate |].
  destruct (Z.gtb n Scratch.GetMemoryLimitInBytes); [discriminate |].
  destruct (alloc (Scratch.device_ordinal_ sa) n false); [| discriminate].
  inversion H; subst. reflexivity.
Qed.

Lemma AllocateAll_ok_total : forall alloc reqs sa b sa',
  Scratch.AllocateAll alloc sa reqs = (Scratch.AllocOk b, sa') ->
  Scratch.TotalAllocatedBytes sa' = Scratch.TotalAllocatedBytes sa + sum_bytes reqs.
Proof.
  intros alloc reqs. induction reqs as [| q rest IH]; intros sa b sa' H.
  - cbn in H. inversion H; subst. cbn [sum_bytes fold_right]. lia.
  - cbn [Scratch.AllocateAll] in H.
    destruct (Scratch.AllocateBytes alloc sa q) as [[| s | b0] sa1] eqn:Ea; try discriminate.
    rewrite (IH _ _ _ H), (AllocateBytes_ok_total _ _ _ _ _ Ea).
    unfold sum_bytes. cbn [fold_right]. lia.
Qed.

Lemma run_valid_profile : forall env alloc alg sa0 p sa,
  RunCudnnConvolution env alloc alg sa0 = RunDone true p sa -> is_valid p = true ->
  pr_algorithm p = Some alg /\
  Scratch.TotalAllocatedBytes sa =
  Scratch.TotalAllocatedBytes sa0 + sum_bytes (co_scratch_requests (env_run env alg)).
Proof.
  intros env alloc alg sa0 p sa H Hv. unfold RunCudnnConvolution in H.
  destruct (Scratch.AllocateAll alloc sa0 (co_scratch_requests (env_run env alg)))
    as [[| s | b] sa1] eqn:Ea; try discriminate.
  destruct (co_launch_ok (env_run env alg)); [| discriminate].
  destruct (co_elapsed_time_in_ms (env_run env alg)) as [t |];
    inversion H; subst; [| cbv in Hv; discriminate].
  split; [reflexivity | eapply AllocateAll_ok_total; exact Ea].
Qed.

(** What a logged trial of candidate [a] records: when it succeeded with a
    valid profile, the profile is for [a] and the scratch bytes are the sum
    of [a]'s requests. *)
Definition trial_record_ok (env : Env) (t : AlgorithmDesc * bool * ProfileResult * Z) : Prop :=
  let '(a, ok, p, b) := t in
  ok && is_valid p = true ->
  pr_algorithm p = Some a /\ b = sum_bytes (co_scratch_requests (env_run env a)).

Lemma trial_records : forall env alloc cc rbuf alg st log r log',
  trial env alloc cc rbuf alg st log = (r, log') ->
  exists ext, log' = log ++ ext /\
    Forall (fun t => fst (fst (fst t)) = alg /\ trial_record_ok env t) (trials_of ext).
Proof.
  intros env alloc cc rbuf alg st log r log' H. unfold trial in H.
  destruct (RunCudnnConvolution env alloc alg (Scratch.create (env_device_ordinal env)))
    as [| ok p sa] eqn:Hrun.
  - cbv [crash] in H. inversion H; subst. exists [].
    split; [symmetry; apply app_nil_r | constructor].
  - assert (Hrec : fst (fst (fst (alg, ok, p, Scratch.TotalAllocatedBytes sa))) = alg /\
                   trial_record_ok env (alg, ok, p, Scratch.TotalAllocatedBytes sa)).
    { split; [reflexivity |]. intros Hv. apply andb_true_iff in Hv. destruct Hv as [Hok Hv].
      subst ok. destruct (run_valid_profile _ _ _ _ _ _ Hrun Hv) as [Ha Ht].
      split; [exact Ha |]. rewrite Ht. reflexivity. }
    bind_case H; [| exfalso; eapply emit_not_err; exact Hm
                  | exfalso; eapply emit_not_crash; exact Hm].
    apply emit_inv in Hm. destruct Hm as [_ Hlog]. subst log0.
    destruct (ok && is_valid p).
    + bind_case H.
      * apply cross_check_step_inv in Hm. destruct Hm as [ext2 [Hlog2 [Ht _]]]. subst log0.
        exists ([EvTrial alg ok p (Scratch.TotalAllocatedBytes sa)] ++ ext2).
        destruct (Z.ltb _ _); cbv [ret] in H; inversion H; subst; clear H;
          (split; [rewrite app_assoc; reflexivity |]);
          rewrite trials_of_app, Ht, app_nil_r; cbn [trials_of];
          exact (Forall_cons _ Hrec (Forall_nil _)).
      * apply cross_check_step_inv in Hm.
        destruct Hm as [ext2 [_ [_ [Hne _]]]]. exfalso. exact (Hne s eq_refl).
      * apply cross_check_step_inv in Hm. destruct Hm as [ext2 [Hlog2 [Ht _]]]. subst.
        exists ([EvTrial alg ok p (Scratch.TotalAllocatedBytes sa)] ++ ext2).
        split; [rewrite app_assoc; reflexivity |].
        rewrite trials_of_app, Ht, app_nil_r; cbn [trials_of].
        constructor; [exact Hrec | constructor].
    + cbv [ret] in H. inversion H; subst.
      exists [EvTrial alg ok p (Scratch.TotalAllocatedBytes sa)].
      split; [reflexivity |]. cbn [trials_of]. constructor; [exact Hrec | constructor].
Qed.

Lemma loop_records : forall env alloc cc rbuf algs st log r log',
  trial_loop env alloc cc rbuf algs st log = (r, log') ->
  exists ext, log' = log ++ ext /\
    Forall (fun t => In (fst (fst (fst t))) algs /\ trial_record_ok env t) (trials_of ext).
Proof.
  intros env alloc cc rbuf algs. induction algs as [| alg rest IH];
    intros st log r log' H.
  - cbv [trial_loop ret] in H. inversion H; subst. exists [].
    split; [symmetry; apply app_nil_r | constructor].
  - cbn [trial_loop] in H. bind_case H.
    + destruct (trial_records _ _ _ _ _ _ _ _ _ Hm) as [e1 [Hl1 F1]].
      destruct (IH _ _ _ _ H) as [e2 [Hl2 F2]].
      exists (e1 ++ e2). subst. split; [rewrite app_assoc; reflexivity |].
      rewrite trials_of_app. apply Forall_app. split.
      * eapply Forall_impl; [| exact F1]. intros t [Ha Hok].
        split; [left; symmetry; exact Ha | exact Hok].
      * eapply Forall_impl; [| exact F2]. intros t [Ha Hok].
        split; [right; exact Ha | exact Hok].
    + apply trial_inv in Hm. destruct Hm as [? [_ [Hne _]]]. exfalso. exact (Hne s eq_refl).
    + destruct (trial_records _ _ _ _ _ _ _ _ _ Hm) as [e1 [Hl1 F1]]. subst.
      exists e1. split; [reflexivity |].
      eapply Forall_impl; [| exact F1]. intros t [Ha Hok].
      split; [left; symmetry; exact Ha | exact Hok].
Qed.

Lemma valid_trials_in_trials : forall l p b, In (p, b) (valid_trials l) ->
  exists a ok, In (a, ok, p, b) (trials_of l) /\ ok && is_valid p = true.
Proof.
  induction l as [| ev l IH]; intros p b H; [destruct H |].
  destruct ev; cbn [valid_trials trials_of] in *;
    try (destruct (IH _ _ H) as [a [ok [Hin Hv]]]; exists a, ok; split; [exact Hin | exact Hv]).
  destruct (launch_ok && is_valid profile) eqn:E.
  - destruct H as [Heq | H].
    + inversion Heq; subst. exists alg, launch_ok. split; [left; reflexivity | exact E].
    + destruct (IH _ _ H) as [a [ok [Hin Hv]]]. exists a, ok. split; [right; exact Hin | exact Hv].
  - destruct (IH _ _ H) as [a [ok [Hin Hv]]]. exists a, ok. split; [right; exact Hin | exact Hv].
Qed.

(** X5: a picking call that succeeds returns a candidate of the queried
    list whose trial was logged as a successful launch with a valid profile
    for that candidate: the algorithm id and tensor-op flag returned are
    that candidate's, and the scratch size returned is the total of the
    scratch requests that candidate made. *)
Theorem pick_returns_profiled_candidate : forall env kind input_shape filter_shape
    output_shape window dnums instr log id tc b,
  PickBestAlgorithm env kind input_shape filter_shape output_shape window dnums instr []
  = (Ok (id, tc, b), log) ->
  exists algs alg p,
    env_get_algorithms env kind
      (ShouldIncludeWinogradNonfusedAlgo (env_dnn_version env) input_shape output_shape dnums)
      = Some algs /\
    In alg algs /\ In (alg, true, p, b) (trials_of log) /\ is_valid p = true /\
    pr_algorithm p = Some alg /\ id = algo_id alg /\ tc = tensor_ops_enabled alg /\
    b = sum_bytes (co_scratch_requests (env_run env alg)).
Proof.
  intros env kind i f o w d instr log id tc b H.
  destruct (pick_phases _ _ _ _ _ _ _ _ _ _ H) as [[_ Hne] | [ib [fb [ob [_ Hc]]]]];
    [exfalso; exact (Hne _ eq_refl) |].
  destruct Hc as [[s [_ [Hr _]]] | [_ [[_ [Hr _]] | [algs [lr [Ea [Hl Hr]]]]]]];
    try discriminate.
  destruct lr as [st | s |]; cbn [pick_epilogue] in Hr; try discriminate.
  destruct (is_valid (best_result st)) eqn:Hv; [| discriminate].
  injection Hr as Hid Htc Hb. subst id tc b.
  destruct (trial_loop_inv _ _ _ _ _ _ _ _ _ Hl) as [ext [Hlog [_ Hfold]]].
  specialize (Hfold st eq_refl). cbn [initial_loop_state best_result best_result_bytes_used] in Hfold.
  destruct (loop_records _ _ _ _ _ _ _ _ _ Hl) as [ext' [Hlog' Hall]].
  rewrite Hlog in Hlog'. apply app_inv_head in Hlog'. subst ext'.
  destruct (fold_best_step_first_min (valid_trials ext) (default_profile, 0))
    as [[Heq _] | [k [Hk _]]].
  - rewrite <- Hfold in Heq. injection Heq as Hb1 _. rewrite Hb1 in Hv. cbv in Hv. discriminate.
  - rewrite <- Hfold in Hk. apply nth_error_In in Hk.
    destruct (valid_trials_in_trials _ _ _ Hk) as [a [ok [Hin Hok]]].
    rewrite Forall_forall in Hall. destruct (Hall _ Hin) as [Ha Hrec].
    cbn [fst] in Ha. destruct (Hrec Hok) as [Hpa Hbytes].
    apply andb_true_iff in Hok. destruct Hok as [Hok1 Hv2]. subst ok.
    exists algs, a, (best_result st).
    split; [exact Ea |]. split; [exact Ha |].
    split; [rewrite Hlog, trials_of_app; apply in_or_app; right; exact Hin |].
    split; [exact Hv2 |]. split; [exact Hpa |].
    unfold algorithm. rewrite Hpa.
    split; [reflexivity |]. split; [reflexivity | exact Hbytes].
Qed.

(** X6: once a picking call has reached [BlockHostUntilDone], a failed
    synchronization is returned as the call's error, a failed candidate
    query aborts the call, and an empty candidate list makes the call fail
    with the 'All algorithms tried ... failed' internal error; in all three
    cases no candidate is tried. *)
Theorem pick_after_buffer_setup : forall env kind input_shape filter_shape output_shape
    window dnums instr r log,
  PickBestAlgorithm env kind input_shape filter_shape output_shape window dnums instr []
  = (r, log) ->
  In EvBlockHostUntilDone log ->
  (forall s, env_block_host_until_done env = SErr s -> r = Err s /\ trials_of log = []) /\
  (env_block_host_until_done env = SOk tt ->
   env_get_algorithms env kind
     (ShouldIncludeWinogradNonfusedAlgo (env_dnn_version env) input_shape output_shape dnums)
     = None ->
   r = Crash /\ trials_of log = []) /\
  (env_block_host_until_done env = SOk tt ->
   env_get_algorithms env kind
     (ShouldIncludeWinogradNonfusedAlgo (env_dnn_version env) input_shape output_shape dnums)
     = Some [] ->
   r = Err (InternalError (all_failed_message instr)) /\ trials_of log = []).
Proof.
  intros env kind i f o w d instr r log H Hin.
  destruct (pick_phases _ _ _ _ _ _ _ _ _ _ H) as [[Hs _] | [ib [fb [ob [_ Hc]]]]].
  { exfalso. destruct (setup_log_quiet _ Hs) as [_ [_ [_ [_ N]]]]. exact (N Hin). }
  destruct Hc as [[s0 [Eb [Hr Hl]]] | [Eb [[Ea [Hr Hl]] | [algs [lr [Ea [Hl Hr]]]]]]].
  - split; [| split; intros Hx; rewrite Eb in Hx; discriminate Hx].
    intros s Hs. rewrite Eb in Hs. injection Hs as <-.
    split; [exact Hr | subst; apply trials_of_prologue].
  - split; [intros s Hs; rewrite Eb in Hs; discriminate Hs |].
    split; [intros _ _; split; [exact Hr | subst; apply trials_of_prologue] |].
    intros _ Hx. rewrite Ea in Hx. discriminate Hx.
  - split; [intros s Hs; rewrite Eb in Hs; discriminate Hs |].
    split; [intros _ Hx; rewrite Ea in Hx; discriminate Hx |].
    intros _ Hx. rewrite Ea in Hx. injection Hx as ->.
    cbv [trial_loop ret] in Hl. inversion Hl; subst.
    split; [reflexivity | apply trials_of_prologue].
Qed.

(** *** RunOnInstruction, RunOnComputation and Run *)

(** [RunOnInstruction] leaves the computation unchanged when it reports
    [false] or aborts, and an error status it returns is that of
    [set_backend_config] or of [ReplaceInstruction]'s shape check. *)
Lemma RunOnInstruction_inv : forall env c id r c' log,
  RunOnInstruction env c id = (r, c', log) ->
  (r = Ok false \/ r = Crash -> c' = c) /\
  (forall s, r = Err s ->
     s = replace_shape_error \/ exists i config, set_backend_config i config = SErr s).
Proof.
  intros env c id r c' log H. unfold RunOnInstruction in H.
  destruct (lookup_instr c id) as [instr |];
    [| inversion H; subst; split; [reflexivity | intros s Hs; discriminate Hs]].
  destruct (negb (IsCustomCallToDnnConvolution instr));
    [inversion H; subst; split; [reflexivity | intros s Hs; discriminate Hs] |].
  destruct (operand_shape c instr 0) as [lhs |];
    [| inversion H; subst; split; [reflexivity | intros s Hs; discriminate Hs]].
  destruct (operand_shape c instr 1) as [rhs |];
    [| inversion H; subst; split; [reflexivity | intros s Hs; discriminate Hs]].
  cbv zeta in H.
  destruct (PickForInstruction env instr lhs rhs) as [m |];
    [| inversion H; subst; split; [reflexivity | intros s Hs; discriminate Hs]].
  destruct (m []) as [[[[a tc] sb] | s |] l];
    [| inversion H; subst; split; [intros _; reflexivity | intros s' Hs; discriminate Hs]
     | inversion H; subst; split; [intros _; reflexivity | intros s' Hs; discriminate Hs]].
  destruct (set_backend_config _ _) as [call' | s0] eqn:Eb.
  - cbv [AddInstruction] in H. cbv beta iota zeta in H. unfold ReplaceInstruction in H.
    destruct (Compatible _ _); inversion H; subst.
    + split; [intros [Hx | Hx]; discriminate Hx | intros s Hs; discriminate Hs].
    + split; [intros [Hx | Hx]; discriminate Hx |].
      intros s Hs. injection Hs as <-. left. reflexivity.
  - cbv [AddInstruction] in H. cbv beta iota zeta in H. inversion H; subst.
    split; [intros [Hx | Hx]; discriminate Hx |].
    intros s Hs. injection Hs as <-. right. eexists. eexists. exact Eb.
Qed.

Lemma run_on_convs_inv : forall env convs c changed r c' log,
  run_on_convs env convs c changed = (r, c', log) ->
  (r = Ok false -> changed = false /\ c' = c) /\
  (forall s, r = Err s ->
     s = replace_shape_error \/ exists i config, set_backend_config i config = SErr s).
Proof.
  intros env convs. induction convs as [| id rest IH]; intros c changed r c' log H.
  - cbn in H. inversion H; subst.
    split; [intros Hx; inversion Hx; auto | intros s Hs; discriminate Hs].
  - cbn [run_on_convs] in H.
    destruct (RunOnInstruction env c id) as [[[res | s |] c1] log1] eqn:E.
    + destruct (run_on_convs env rest c1 (changed || res)) as [[r2 c2] log2] eqn:E2.
      inversion H; subst.
      destruct (IH _ _ _ _ _ E2) as [Hf Hne]. split; [| exact Hne].
      intros Hx. destruct (Hf Hx) as [Hc Hc']. apply orb_false_iff in Hc.
      destruct Hc as [-> ->]. split; [reflexivity |]. rewrite Hc'.
      destruct (RunOnInstruction_inv _ _ _ _ _ _ E) as [Hi _]. apply Hi. left. reflexivity.
    + inversion H; subst. split; [intros Hx; discriminate Hx |].
      intros s' Hs. injection Hs as <-.
      destruct (RunOnInstruction_inv _ _ _ _ _ _ E) as [_ Hi]. apply Hi. reflexivity.
    + inversion H; subst. split; [intros Hx; discriminate Hx | intros s Hs; discriminate Hs].
Qed.

Lemma run_on_computations_inv : forall env comps changed r comps' log,
  run_on_computations env comps changed = (r, comps', log) ->
  (r = Ok false -> changed = false /\ comps' = comps) /\
  (forall s, r = Err s ->
     s = replace_shape_error \/ exists i config, set_backend_config i config = SErr s).
Proof.
  intros env comps. induction comps as [| [c fusion] rest IH];
    intros changed r comps' log H.
  - cbn in H. inversion H; subst.
    split; [intros Hx; inversion Hx; auto | intros s Hs; discriminate Hs].
  - destruct fusion; cbn [run_on_computations] in H.
    + destruct (run_on_computations env rest changed) as [[r1 rest'] log1] eqn:E.
      inversion H; subst. destruct (IH _ _ _ _ E) as [Hu Hne].
      split; [| exact Hne].
      intros Hx. destruct (Hu Hx) as [-> ->]. split; reflexivity.
    + destruct (RunOnComputation env c) as [[[res | s |] c1] log1] eqn:E;
        unfold RunOnComputation in E.
      * destruct (run_on_computations env rest (changed || res)) as [[r2 rest'] log2] eqn:E2.
        inversion H; subst. destruct (IH _ _ _ _ E2) as [Hu Hne].
        split; [| exact Hne].
        intros Hx. destruct (Hu Hx) as [Hc ->]. apply orb_false_iff in Hc.
        destruct Hc as [-> ->]. split; [reflexivity |].
        destruct (run_on_convs_inv _ _ _ _ _ _ _ E) as [Hc1 _].
        destruct (Hc1 eq_refl) as [_ ->]. reflexivity.
      * inversion H; subst. split; [intros Hx; discriminate Hx |].
        intros s' Hs. injection Hs as <-.
        destruct (run_on_convs_inv _ _ _ _ _ _ _ E) as [_ Hi]. apply Hi. reflexivity.
      * inversion H; subst. split; [intros Hx; discriminate Hx | intros s Hs; discriminate Hs].
Qed.

Lemma lookup_instr_NoDup : forall c instr,
  NoDup (map hi_id (hc_instructions c)) -> In instr (hc_instructions c) ->
  lookup_instr c (hi_id instr) = Some instr.
Proof.
  intros c instr. unfold lookup_instr. generalize (hc_instructions c) as l.
  induction l as [| x l IH]; intros Hnd Hin; [destruct Hin |].
  cbn [map] in Hnd. inversion Hnd as [| ? ? Hnotin Hnd']; subst.
  cbn [find]. destruct Hin as [-> | Hin].
  - rewrite Z.eqb_refl. reflexivity.
  - destruct (Z.eqb (hi_id x) (hi_id instr)) eqn:E.
    + apply Z.eqb_eq in E. exfalso. apply Hnotin. rewrite E. apply in_map. exact Hin.
    + apply IH; assumption.
Qed.

Lemma in_convs_of : forall c id, In id (convs_of c) ->
  exists instr, In instr (hc_instructions c) /\
    IsCustomCallToDnnConvolution instr = true /\ hi_id instr = id.
Proof.
  intros c id H. unfold convs_of in H. apply in_map_iff in H.
  destruct H as [instr [Hid Hin]]. apply filter_In in Hin. destruct Hin as [Hin Hc].
  exists instr. auto.
Qed.

Lemma run_on_convs_all_fail : forall env c ids changed,
  (forall id, In id ids -> exists instr lhs rhs m s l,
     lookup_instr c id = Some instr /\ IsCustomCallToDnnConvolution instr = true /\
     operand_shape c instr 0 = Some lhs /\ operand_shape c instr 1 = Some rhs /\
     PickForInstruction env instr lhs rhs = Some m /\ m [] = (Err s, l)) ->
  exists log, run_on_convs env ids c changed = (Ok changed, c, log) /\
    (List.length ids <= error_count log)%nat.
Proof.
  intros env c ids. induction ids as [| id rest IH]; intros changed H.
  - exists []. split; [reflexivity | cbn; lia].
  - destruct (H id (or_introl eq_refl))
      as [instr [lhs [rhs [m [s [l [Hl [Hc [H0 [H1 [Hp Hm]]]]]]]]]]].
    assert (Hrun : RunOnInstruction env c id
                   = (Ok false, c, l ++ [EvLogError (status_message s)])).
    { unfold RunOnInstruction. rewrite Hl, Hc. cbn [negb]. rewrite H0, H1. cbv zeta.
      rewrite Hp, Hm. reflexivity. }
    destruct (IH (changed || false) (fun id' Hin => H id' (or_intror Hin))) as [log [Hr Hcount]].
    exists ((l ++ [EvLogError (status_message s)]) ++ log).
    cbn [run_on_convs]. rewrite Hrun, Hr. split; [rewrite orb_false_r; reflexivity |].
    rewrite !error_count_app. cbn [List.length error_count]. lia.
Qed.

(** X7: for a convolution custom call whose two operands are in the
    computation, the call-target dispatch always reaches a picking call
    (the [LOG(FATAL)] branch is dead), and [RunOnInstruction] aborts exactly
    when that picking call aborts, with the same log and the computation
    untouched. *)
Theorem RunOnInstruction_crash_only_in_pick : forall env c instr_id instr lhs rhs,
  lookup_instr c instr_id = Some instr ->
  IsCustomCallToDnnConvolution instr = true ->
  operand_shape c instr 0 = Some lhs ->
  operand_shape c instr 1 = Some rhs ->
  exists m, PickForInstruction env instr lhs rhs = Some m /\
    (forall c' log, RunOnInstruction env c instr_id = (Crash, c', log) <->
                    (m [] = (Crash, log) /\ c' = c)).
Proof.
  intros env c id instr lhs rhs Hl Hc H0 H1.
  assert (Hp : exists m, PickForInstruction env instr lhs rhs = Some m).
  { unfold PickForInstruction. unfold IsCustomCallToDnnConvolution in Hc.
    apply andb_true_iff in Hc. destruct Hc as [_ Ht].
    destruct (String.eqb (hi_custom_call_target instr) kCudnnConvForwardCallTarget);
      [eexists; reflexivity |].
    destruct (String.eqb (hi_custom_call_target instr) kCudnnConvBackwardInputCallTarget);
      [eexists; reflexivity |].
    destruct (String.eqb (hi_custom_call_target instr) kCudnnConvBackwardFilterCallTarget);
      [eexists; reflexivity | discriminate Ht]. }
  destruct Hp as [m Hm]. exists m. split; [exact Hm |].
  intros c' log. unfold RunOnInstruction. rewrite Hl, Hc. cbn [negb]. rewrite H0, H1.
  cbv zeta. rewrite Hm.
  destruct (m []) as [[[[a tc] sb] | s |] l].
  - unfold set_backend_config, ReplaceInstruction. cbv [AddInstruction]. cbv beta iota zeta.
    destruct (Compatible _ _);
      (split; [intros Hx; discriminate Hx | intros [Hx _]; discriminate Hx]).
  - split; [intros Hx; discriminate Hx | intros [Hx _]; discriminate Hx].
  - split.
    + intros Hx. inversion Hx; subst. split; reflexivity.
    + intros [Hx ->]. inversion Hx; subst. reflexivity.
Qed.

(** X8: [Run] fails with an error status only when the rewrite of a
    convolution fails: the status is that of [set_backend_config] or of the
    shape check of [ReplaceInstruction].  A picking call that fails is
    logged and skipped, never propagated. *)
Theorem Run_error_only_from_rewrite : forall env m s m' log,
  Run env m = (Err s, m', log) ->
  s = replace_shape_error \/ exists i config, set_backend_config i config = SErr s.
Proof.
  intros env [comps] s m' log H. unfold Run in H. cbn [hm_computations] in H.
  destruct (run_on_computations env comps false) as [[r comps'] l] eqn:E.
  inversion H; subst. destruct (run_on_computations_inv _ _ _ _ _ _ E) as [_ Hne].
  apply Hne. reflexivity.
Qed.

(** X9: when the picking call for a convolution custom call succeeds, the
    rewrite ends in the shape check of [ReplaceInstruction]:
    [RunOnInstruction] reports [true] when the original's shape is
    compatible with the shape [(r0, u8[0])] of the replacing tuple, [r0]
    being the original's first tuple element, and otherwise fails with the
    check's error status (for instance on a call shaped [(r0, u8[k])] with
    [k > 0]), leaving the original in the computation.  The log is that of
    the picking call in both cases. *)
Theorem RunOnInstruction_shape_check : forall env c instr_id instr lhs rhs m a tc sb log,
  lookup_instr c instr_id = Some instr ->
  IsCustomCallToDnnConvolution instr = true ->
  operand_shape c instr 0 = Some lhs ->
  operand_shape c instr 1 = Some rhs ->
  PickForInstruction env instr lhs rhs = Some m ->
  m [] = (Ok (a, tc, sb), log) ->
  exists c',
    RunOnInstruction env c instr_id =
    (if Compatible (hi_shape instr)
          (MakeTupleShape [tuple_shapes (hi_shape instr) 0; MakeShape U8 [0]])
     then Ok true else Err replace_shape_error, c', log) /\
    (Compatible (hi_shape instr)
       (MakeTupleShape [tuple_shapes (hi_shape instr) 0; MakeShape U8 [0]]) = false ->
     In instr (hc_instructions c')).
Proof.
  intros env c id instr lhs rhs m a tc sb log Hl Hc H0 H1 Hp Hm.
  destruct (lookup_instr_In _ _ _ Hl) as [Hin _].
  unfold RunOnInstruction. rewrite Hl, Hc. cbn [negb]. rewrite H0, H1. cbv zeta.
  rewrite Hp, Hm. unfold set_backend_config, AddInstruction, ReplaceInstruction.
  cbn [hc_next_id hc_instructions hc_root].
  cbn [hi_shape with_id CreateTuple CreateGetTupleElement CreateEmptyU8Constant MakeTupleShape
       MakeShape tuple_shapes nth].
  destruct (Compatible (hi_shape instr)
              (MakeTupleShape [tuple_shapes (hi_shape instr) 0; MakeShape U8 [0]])) eqn:Ec.
  - eexists. split; [reflexivity | intros Hx; discriminate Hx].
  - eexists. split; [reflexivity |]. intros _. cbn [hc_instructions].
    rewrite <- !app_assoc. apply in_or_app. left. exact Hin.
Qed.

(** X10: when [Run] succeeds reporting no change, the module is unchanged. *)
Theorem Run_unchanged_when_not_changed : forall env m m' log,
  Run env m = (Ok false, m', log) -> m' = m.
Proof.
  intros env [comps] m' log H. unfold Run in H. cbn [hm_computations] in H.
  destruct (run_on_computations env comps false) as [[r comps'] l] eqn:E.
  inversion H; subst. destruct (run_on_computations_inv _ _ _ _ _ _ E) as [Hu _].
  destruct (Hu eq_refl) as [_ ->]. reflexivity.
Qed.

(** X11: a module whose non-fusion computations hold no convolution custom
    call is left unchanged: [Run] reports [false] and logs nothing. *)
Theorem Run_without_convolutions : forall env m,
  Forall (fun x => snd x = true \/ convs_of (fst x) = []) (hm_computations m) ->
  Run env m = (Ok false, m, []).
Proof.
  intros env [comps] H. unfold Run. cbn [hm_computations] in *.
  assert (Hc : forall changed, run_on_computations env comps changed = (Ok changed, comps, [])).
  { induction H as [| [c f] rest Hx Hrest IH]; intros changed; [reflexivity |].
    destruct f; cbn [run_on_computations].
    - rewrite IH. reflexivity.
    - destruct Hx as [Hx | Hx]; [discriminate Hx |]. cbn [fst] in Hx.
      unfold RunOnComputation. rewrite Hx. cbn [run_on_convs].
      rewrite IH, orb_false_r. reflexivity. }
  rewrite Hc. reflexivity.
Qed.

(** X12: in a computation with distinct instruction ids, when the picking
    call of every convolution custom call fails with an error status,
    [RunOnComputation] goes through all of them, reports no change, leaves
    the computation as it was and logs at least one error-level diagnostic
    per convolution. *)
Theorem RunOnComputation_all_picks_fail : forall env c,
  NoDup (map hi_id (hc_instructions c)) ->
  (forall instr, In instr (hc_instructions c) -> IsCustomCallToDnnConvolution instr = true ->
     exists lhs rhs m s l, operand_shape c instr 0 = Some lhs /\
       operand_shape c instr 1 = Some rhs /\
       PickForInstruction env instr lhs rhs = Some m /\ m [] = (Err s, l)) ->
  exists log, RunOnComputation env c = (Ok false, c, log) /\
    (List.length (convs_of c) <= error_count log)%nat.
Proof.
  intros env c Hnd H. unfold RunOnComputation. apply run_on_convs_all_fail.
  intros id Hin. destruct (in_convs_of _ _ Hin) as [instr [Hi [Hc <-]]].
  destruct (H instr Hi Hc) as [lhs [rhs [m [s [l [H0 [H1 [Hp Hm]]]]]]]].
  exists instr, lhs, rhs, m, s, l. split; [apply lookup_instr_NoDup; assumption |].
  auto.
Qed.

(** *** The checks of [initialize_f16] *)

Lemma f16_buffer_ok : forall b dims,
  dm_opaque b mod 4 = 0 -> dm_size b = ByteSizeOf (ArrayShape F16 dims) -> f16_ok b.
Proof.
  intros b dims Ha Hs. split; [exact Ha |].
  rewrite Hs. cbn [ByteSizeOf ByteSizeOfPrimitiveType].
  set (x := fold_right Z.mul 1 dims).
  rewrite (Z.mod_eq (x * 2) 4) by discriminate.
  replace (x * 2 - 4 * (x * 2 / 4)) with ((x - 2 * (x * 2 / 4)) * 2) by ring.
  apply Z.mod_mul. discriminate.
Qed.

Lemma initialize_f16_ok : forall b log,
  f16_ok b -> initialize_f16 b log = (Ok tt, log ++ f16_events b).
Proof.
  intros b log [H1 H2]. unfold initialize_f16. cbv [bind check ret emit].
  rewrite (proj2 (Z.eqb_eq _ _) H1). cbv beta iota zeta.
  rewrite (proj2 (Z.eqb_eq _ _) H2). cbv beta iota zeta.
  rewrite <- app_assoc. reflexivity.
Qed.

(** X13: the two [CHECK]s of [initialize_f16] never fire on F16 operand
    buffers at 4-byte aligned addresses: such a buffer's size is even, so
    its left-over bytes are even too.  The F16 initialization then queues
    the memset and the memcpy for each of the three buffers. *)
Theorem initialize_buffers_f16_never_aborts : forall i f o di df dout log,
  dm_opaque i mod 4 = 0 -> dm_opaque f mod 4 = 0 -> dm_opaque o mod 4 = 0 ->
  dm_size i = ByteSizeOf (ArrayShape F16 di) ->
  dm_size f = ByteSizeOf (ArrayShape F16 df) ->
  dm_size o = ByteSizeOf (ArrayShape F16 dout) ->
  initialize_buffers true i f o log = (Ok tt, log ++ init_events true i f o).
Proof.
  intros i f o di df dout log Hi Hf Ho Si Sf So.
  unfold initialize_buffers, init_events, bind.
  rewrite (initialize_f16_ok _ _ (f16_buffer_ok _ _ Hi Si)).
  rewrite (initialize_f16_ok _ _ (f16_buffer_ok _ _ Hf Sf)).
  rewrite (initialize_f16_ok _ _ (f16_buffer_ok _ _ Ho So)).
  rewrite <- !app_assoc. reflexivity.
Qed.

(** *** Instances of the further properties *)

(** Witness for X1: cuDNN 6 and the forward shapes of [comp1]. *)
Lemma winograd_exact_without_overflow_witness :
  ShouldIncludeWinogradNonfusedAlgo cudnn6 in_f32 out_f32 dn2d =
  Z.ltb (winograd_total_size_spec in_f32 out_f32 dn2d) threshold.
Proof.
  apply winograd_exact_without_overflow.
  - vm_compute. reflexivity.
  - split; vm_compute; first [reflexivity | discriminate].
Defined.

(** Witness for X2: the text [2+TC] names algorithm 2 with tensor ops. *)
Lemma AlgorithmToString_injective_witness : alg2 = mkAlgorithmDesc 2 true.
Proof.
  apply AlgorithmToString_injective.
  - split; vm_compute; first [reflexivity | discriminate].
  - split; vm_compute; first [reflexivity | discriminate].
  - vm_compute. reflexivity.
Defined.

(** Witness for X3: the first two calls of [devices3] are for different
    devices and lock different mutexes. *)
Lemma LockGpu_one_mutex_per_device_witness : (0 = 1)%nat <-> (7, 0) = (7, 1).
Proof.
  apply (LockGpu_one_mutex_per_device devices3 [0; 1; 0]%nat
           (snd (LockGpu_calls no_gpu_mutexes devices3)) 0 1).
  - vm_compute. reflexivity.
  - reflexivity.
  - reflexivity.
  - reflexivity.
  - reflexivity.
Defined.

(** Witness for X4: the forward F32 picking call on [env1]. *)
Lemma pick_without_f16_no_cross_check_witness :
  comparators_created (snd pick_fwd_f32) = [] /\ comparisons_of (snd pick_fwd_f32) = [] /\
  error_count (snd pick_fwd_f32) = O.
Proof.
  destruct (pick_without_f16_no_cross_check env1 kForward in_f32 filt_f32 out_f32 [] dn2d
              conv_instr _ _ eq_refl (surjective_pairing pick_fwd_f32)) as [A [B [C _]]].
  exact (conj A (conj B C)).
Defined.

(** Witness for X5: that call returns algorithm 2, whose scratch requests
    are 200 and 50 bytes. *)
Lemma pick_returns_profiled_candidate_witness :
  exists algs alg p,
    env_get_algorithms env1 kForward
      (ShouldIncludeWinogradNonfusedAlgo (env_dnn_version env1) in_f32 out_f32 dn2d)
      = Some algs /\
    In alg algs /\ In (alg, true, p, 250) (trials_of (snd pick_fwd_f32)) /\
    is_valid p = true /\ pr_algorithm p = Some alg /\ 2 = algo_id alg /\
    true = tensor_ops_enabled alg /\ 250 = sum_bytes (co_scratch_requests (env_run env1 alg)).
Proof.
  apply (pick_returns_profiled_candidate env1 kForward in_f32 filt_f32 out_f32 [] dn2d
           conv_instr (snd pick_fwd_f32) 2 true 250).
  vm_compute. reflexivity.
Defined.

(** Witness for X6: with no candidate the call fails with the 'All
    algorithms tried' error. *)
Lemma pick_after_buffer_setup_witness :
  fst pick_no_algs = Err (InternalError (all_failed_message conv_instr)) /\
  trials_of (snd pick_no_algs) = [].
Proof.
  assert (Hin : In EvBlockHostUntilDone (snd pick_no_algs)).
  { vm_compute. repeat (first [left; reflexivity | right]). }
  destruct (pick_after_buffer_setup env_no_algs kForward in_f32 filt_f32 out_f32 [] dn2d
              conv_instr _ _ (surjective_pairing pick_no_algs) Hin) as [_ [_ H3]].
  exact (H3 eq_refl eq_refl).
Defined.

(** Witness for X7: the convolution of [comp_mixed]. *)
Lemma RunOnInstruction_crash_only_in_pick_witness :
  exists m, PickForInstruction env1 conv_instr in_f32 filt_f16 = Some m /\
    (forall c' log, RunOnInstruction env1 comp_mixed 3 = (Crash, c', log) <->
                    (m [] = (Crash, log) /\ c' = comp_mixed)).
Proof.
  apply RunOnInstruction_crash_only_in_pick; vm_compute; reflexivity.
Defined.

(** Witness for X8: the convolution of [module_scratch] is already shaped
    [(r0, u8[250])], so the shape check of its rewrite fails. *)
Lemma Run_error_only_from_rewrite_witness :
  Run env1 module_scratch =
  (Err replace_shape_error, snd (fst (Run env1 module_scratch)), snd (Run env1 module_scratch)) /\
  (replace_shape_error = replace_shape_error \/
   exists i config, set_backend_config i config = SErr replace_shape_error).
Proof.
  split; [vm_compute; reflexivity |].
  apply (Run_error_only_from_rewrite env1 module_scratch replace_shape_error
           (snd (fst (Run env1 module_scratch))) (snd (Run env1 module_scratch))).
  vm_compute. reflexivity.
Defined.

(** Witness for X9: the picking call for [conv_scratch] succeeds, and its
    rewrite fails the shape check. *)
Lemma RunOnInstruction_shape_check_witness :
  exists c', RunOnInstruction env1 comp_scratch 3 = (Err replace_shape_error, c', snd pick_scratch) /\
    In conv_scratch (hc_instructions c').
Proof.
  destruct (RunOnInstruction_shape_check env1 comp_scratch 3 conv_scratch in_f32 filt_f32
              (PickBestAlgorithm env1 kForward in_f32 filt_f32 out_f32 [] dn2d conv_scratch)
              2 true 250 (snd pick_scratch))
    as [c' [Hr Hin]]; [vm_compute; reflexivity .. |].
  exists c'. split; [rewrite Hr; reflexivity | apply Hin; reflexivity].
Defined.

(** Witness for X10: every picking call of [module_all_fail] fails. *)
Lemma Run_unchanged_when_not_changed_witness :
  snd (fst (Run env_all_fail module_all_fail)) = module_all_fail.
Proof.
  apply (Run_unchanged_when_not_changed env_all_fail module_all_fail _
           (snd (Run env_all_fail module_all_fail))).
  vm_compute. reflexivity.
Defined.

(** Witness for X11: the convolution of [module_fusion] is in a fusion
    computation. *)
Lemma Run_without_convolutions_witness : Run env1 module_fusion = (Ok false, module_fusion, []).
Proof.
  apply Run_without_convolutions.
  constructor; [left; reflexivity |].
  constructor; [right; vm_compute; reflexivity | constructor].
Defined.

(** Witness for X12: [comp1] under [env_all_fail]. *)
Lemma RunOnComputation_all_picks_fail_witness :
  exists log, RunOnComputation env_all_fail comp1 = (Ok false, comp1, log) /\
    (List.length (convs_of comp1) <= error_count log)%nat.
Proof.
  apply RunOnComputation_all_picks_fail.
  - vm_compute. repeat constructor; vm_compute; intros Hx;
      repeat (destruct Hx as [Hx | Hx]; [discriminate Hx |]); exact Hx.
  - intros instr Hin Hc. vm_compute in Hin.
    destruct Hin as [<- | [<- | [<- | []]]]; [vm_compute in Hc; discriminate Hc
                                           | vm_compute in Hc; discriminate Hc |].
    exists in_f32, filt_f32,
      (PickBestAlgorithm env_all_fail kForward in_f32 filt_f32 out_f32 [] dn2d conv_instr),
      (InternalError (all_failed_message conv_instr)),
      (snd (PickBestAlgorithm env_all_fail kForward in_f32 filt_f32 out_f32 [] dn2d
              conv_instr [])).
    split; [reflexivity |]. split; [reflexivity |]. split; [reflexivity |].
    vm_compute. reflexivity.
Defined.

(** Witness for X13: the F16 operand buffers of [in_f16], [filt_f16] and
    [out_f16] from [dev_alloc]. *)
Lemma initialize_buffers_f16_never_aborts_witness :
  initialize_buffers true (mkDeviceMemory 4096 64) (mkDeviceMemory 4096 12)
    (mkDeviceMemory 4096 96) [] =
  (Ok tt, [] ++ init_events true (mkDeviceMemory 4096 64) (mkDeviceMemory 4096 12)
                (mkDeviceMemory 4096 96)).
Proof.
  apply (initialize_buffers_f16_never_aborts _ _ _ [1; 2; 4; 4] [3; 2; 1; 1] [1; 3; 4; 4]);
    reflexivity.
Defined.
